(** * Image-to-PDF document editor: the transformation pipeline and the
      session state of [app.py], embedded in Rocq.

    The development follows the layout of the source file:
    - the image utilities ([to_gray], [enhance_contrast],
      [adjust_brightness_contrast], [process_image]);
    - the session state and its callbacks ([initialize_state],
      [next_image], [prev_image], [rotate_current_image], [apply_to_all],
      [update_current_image_settings]);
    - the page reorder block of the script body.

    Python exceptions are results of an error monad; the Streamlit session
    state is a record that every callback takes and returns. *)

From stdpp Require Import gmap strings list fin_maps.
From Stdlib Require Import ZArith QArith Qabs Qpower Qreduction Lia Lqa.

Local Open Scope Z_scope.

(** ** Exceptions and the error monad *)

(** The exceptions a run of the code can end in, and the three error kinds
    the specification names ([InvalidSettings], [InvalidReorder],
    [DecodeError]).  [UnboundLocalError] is a subclass of [NameError] in
    Python; we keep the class name the reader of a traceback would look
    for. *)
Inductive exn : Type :=
  | NameError (var : string)
  | KeyError (key : string)
  | IndexError
  | cv2_error
  | InvalidSettings
  | InvalidReorder
  | DecodeError (source : string).

Inductive result (A : Type) : Type :=
  | Ok (a : A)
  | Raise (e : exn).
Arguments Ok {A} a.
Arguments Raise {A} e.

Definition result_bind {A B} (f : A → result B) (r : result A) : result B :=
  match r with
  | Ok a => f a
  | Raise e => Raise e
  end.

#[export] Instance result_mbind : MBind result := @result_bind.
#[export] Instance result_mret : MRet result := @Ok.

(** ** Rasters *)

(** A numpy [uint8] array as the code meets it: two-dimensional (one
    luminance value per pixel) or three-dimensional with three channels per
    pixel, stored row by row. *)
Definition pixel : Type := Z * Z * Z.

Inductive ndarray : Type :=
  | Gray (rows : list (list Z))
  | Color (rows : list (list pixel)).

(** [len(img.shape)] *)
Definition shape_len (a : ndarray) : nat :=
  match a with
  | Gray _ => 2
  | Color _ => 3
  end.

(** [img.size == 0]: no row, or rows of width zero. *)
Definition rows_empty {A} (rows : list (list A)) : bool :=
  match rows with
  | [] => true
  | [] :: _ => true
  | _ => false
  end.

(** A numpy array is rectangular; [raster_ok] says so of the row lists, and
    that height and width are positive. *)
Definition raster_ok {A} (rows : list (list A)) : bool :=
  match rows with
  | [] => false
  | r :: rest =>
      negb (Nat.eqb (length r) 0)
      && forallb (λ r', Nat.eqb (length r') (length r)) rest
  end.

(** A decoded colour raster of shape [(h, w, 3)], [h, w > 0]: what
    [cv2.imdecode(_, IMREAD_COLOR)] and the crop widget hand to the
    pipeline. *)
Definition is_bgr (a : ndarray) : bool :=
  match a with
  | Gray _ => false
  | Color c => raster_ok c
  end.

Definition map_rows {A B} (f : A → B) (rows : list (list A)) : list (list B) :=
  map (map f) rows.

Definition map_channels (f : Z → Z) (p : pixel) : pixel :=
  let '(c0, c1, c2) := p in (f c0, f c1, f c2).

(** ** The OpenCV and PIL calls the code makes *)

Fixpoint zip_cons {A} (col : list A) (rows : list (list A)) : list (list A) :=
  match col, rows with
  | x :: col', r :: rows' => (x :: r) :: zip_cons col' rows'
  | _, _ => []
  end.

Fixpoint transpose {A} (rows : list (list A)) : list (list A) :=
  match rows with
  | [] => []
  | [r] => map (λ x, [x]) r
  | r :: rest => zip_cons r (transpose rest)
  end.

Inductive rotate_code : Type :=
  | ROTATE_90_CLOCKWISE
  | ROTATE_180
  | ROTATE_90_COUNTERCLOCKWISE.

Definition rotate_rows {A} (code : rotate_code) (rows : list (list A))
  : list (list A) :=
  match code with
  | ROTATE_90_CLOCKWISE => transpose (rev rows)
  | ROTATE_180 => rev (map (@rev A) rows)
  | ROTATE_90_COUNTERCLOCKWISE => rev (transpose rows)
  end.

(** [cv2.rotate] *)
Definition cv2_rotate (a : ndarray) (code : rotate_code) : ndarray :=
  match a with
  | Gray g => Gray (rotate_rows code g)
  | Color c => Color (rotate_rows code c)
  end.

(** [cvRound]: the nearest integer, ties to even. *)
Definition cvRound (x : Q) : Z :=
  let n := Qnum x in
  let d := Zpos (Qden x) in
  let k := n `div` d in
  let r := n `mod` d in
  if 2 * r <? d then k
  else if d <? 2 * r then k + 1
  else if Z.even k then k else k + 1.

(** [saturate_cast<uchar>] *)
Definition saturate_u8 (v : Z) : Z := Z.max 0 (Z.min 255 v).

(** The affine value [src * alpha + beta] of one channel, as a rational. *)
Definition scaled (alpha : Q) (beta : Z) (src : Z) : Q :=
  Qplus (Qmult (inject_Z src) alpha) (inject_Z beta).

(** *** Single precision

    For [uint8] input OpenCV computes [convertScaleAbs] in single
    precision: [alpha] and [beta] are cast to [float], and each channel is
    [saturate_cast<uchar>(std::abs(src * a + b))] with a [float] product
    and a [float] sum.  A [float] is the rational it denotes; every
    operation is the exact result rounded to the nearest value with a
    24-bit significand, ties to the even significand.  The exponent range
    is not modelled (no overflow, no subnormals), and neither is the
    conversion of a rounded value beyond the [int] range. *)

Definition pow2 (e : Z) : Q := Qpower 2 e.

(** [floor (log2 |q|)] of a non-zero rational. *)
Definition binade (q : Q) : Z :=
  let e0 := Z.log2 (Z.abs (Qnum q)) - Z.log2 (Zpos (Qden q)) in
  if Qle_bool (pow2 e0) (Qabs q) then e0 else e0 - 1.

(** Half a unit in the last place, relative to the value: [2^-24]. *)
Definition f32_eps : Q := 1 # 16777216.

(** The nearest [float] to a rational. *)
Definition f32_round (q : Q) : Q :=
  if Qeq_bool q 0 then 0%Q
  else
    let ulp := pow2 (binade q - 23) in
    Qred (inject_Z (cvRound (q / ulp)) * ulp).

(** One channel of [cv2.convertScaleAbs]:
    [dst = saturate_cast<uchar>(|src * alpha + beta|)], in [float].
    [alpha] is the value of the Python float the caller passes. *)
Definition scale_abs_u8 (alpha : Q) (beta : Z) (src : Z) : Z :=
  let a := f32_round alpha in
  let b := f32_round (inject_Z beta) in
  let product := f32_round (inject_Z src * a) in
  let sum := f32_round (product + b) in
  saturate_u8 (cvRound (Qabs sum)).

(** [cv2.convertScaleAbs] *)
Definition cv2_convertScaleAbs (a : ndarray) (alpha : Q) (beta : Z) : ndarray :=
  match a with
  | Gray g => Gray (map_rows (scale_abs_u8 alpha beta) g)
  | Color c => Color (map_rows (map_channels (scale_abs_u8 alpha beta)) c)
  end.

Inductive color_code : Type :=
  | COLOR_BGR2GRAY
  | COLOR_BGR2RGB.

Definition swap_br (p : pixel) : pixel :=
  let '(b, g, r) := p in (r, g, b).

(** PIL images in the two modes the code produces. *)
Inductive pil_image : Type :=
  | PIL_L (rows : list (list Z))
  | PIL_RGB (rows : list (list pixel)).

Definition bands (im : pil_image) : nat :=
  match im with
  | PIL_L _ => 1
  | PIL_RGB _ => 3
  end.

(** [Image.fromarray] *)
Definition Image_fromarray (a : ndarray) : pil_image :=
  match a with
  | Gray g => PIL_L g
  | Color c => PIL_RGB c
  end.

(** [.convert("RGB")] *)
Definition convert_RGB (im : pil_image) : pil_image :=
  match im with
  | PIL_L g => PIL_RGB (map_rows (λ v, (v, v, v)) g)
  | PIL_RGB c => PIL_RGB c
  end.

(** ** Settings *)

(** The per-image [settings] dictionary. *)
Record Settings : Type := mk_settings {
  style : string;
  brightness : Z;
  contrast : Q;
  rotate : Z
}.

(** The dictionary [initialize_state] gives every new image. *)
Definition default_settings : Settings :=
  {| style := "Original"; brightness := 0; contrast := 1%Q; rotate := 0 |}.

Section Pipeline.

(** The luminance of one BGR pixel and the CLAHE filter are OpenCV's; the
    pipeline is parametric in them. *)
Variable bgr2gray_px : pixel → Z.
Variable clahe_apply : Q → nat → list (list Z) → list (list Z).

(** [cv2.cvtColor]: asserts a non-empty source with three channels. *)
Definition cv2_cvtColor (a : ndarray) (code : color_code) : result ndarray :=
  match a with
  | Gray _ => Raise cv2_error
  | Color c =>
      if rows_empty c then Raise cv2_error
      else match code with
           | COLOR_BGR2GRAY => Ok (Gray (map_rows bgr2gray_px c))
           | COLOR_BGR2RGB => Ok (Color (map_rows swap_br c))
           end
  end.

Definition to_gray (bgr : ndarray) : result ndarray :=
  cv2_cvtColor bgr COLOR_BGR2GRAY.

(** [enhance_contrast(gray, clip=2.0, tiles=8)] *)
Definition enhance_contrast (gray : ndarray) (clip : Q) (tiles : nat)
  : result ndarray :=
  match gray with
  | Gray g => Ok (Gray (clahe_apply clip tiles g))
  | Color _ => Raise cv2_error
  end.

Definition adjust_brightness_contrast (bgr : ndarray) (brightness : Z)
    (contrast : Q) : ndarray :=
  cv2_convertScaleAbs bgr contrast brightness.

(** Convert BGR (OpenCV) to PIL Image. *)
Definition bgr_to_pil (img : ndarray) : result pil_image :=
  if Nat.eqb (shape_len img) 2
  then Ok (convert_RGB (Image_fromarray img))
  else
    rgb ← cv2_cvtColor img COLOR_BGR2RGB;
    mret (Image_fromarray rgb).

(** Step 1 of [process_image]. *)
Definition rotate_step (bgr : ndarray) (s : Settings) : ndarray :=
  if rotate s =? 90 then cv2_rotate bgr ROTATE_90_CLOCKWISE
  else if rotate s =? 180 then cv2_rotate bgr ROTATE_180
  else if rotate s =? 270 then cv2_rotate bgr ROTATE_90_COUNTERCLOCKWISE
  else bgr.

(** Step 3 of [process_image]: the value bound to [processed_img], [None]
    while the name is unbound. *)
Definition style_step (processed_bgr : ndarray) (s : Settings)
  : result (option ndarray) :=
  if String.eqb (style s) "Black & White" then
    gray ← to_gray processed_bgr;
    processed_img ← enhance_contrast gray 2%Q 8%nat;
    mret (Some processed_img)
  else if String.eqb (style s) "Original" then
    if Nat.eqb (shape_len processed_bgr) 3 then
      processed_img ← cv2_cvtColor processed_bgr COLOR_BGR2RGB;
      mret (Some processed_img)
    else mret (Some processed_bgr)
  else mret None.

Definition process_image (bgr : ndarray) (s : Settings) : result pil_image :=
  let processed_bgr := rotate_step bgr s in
  let processed_bgr :=
    adjust_brightness_contrast processed_bgr (brightness s) (contrast s) in
  binding ← style_step processed_bgr s;
  match binding with
  | None => Raise (NameError "processed_img")
  | Some processed_img =>
      if Nat.eqb (shape_len processed_img) 2
      then Ok (convert_RGB (Image_fromarray processed_img))
      else Ok (Image_fromarray processed_img)
  end.

End Pipeline.

(** ** Session state *)

(** One entry of [st.session_state.images].  [original_bgr] is [None] when
    [cv2.imdecode] could not read the bytes.  The list holds the
    dictionaries by value, which is the program's list as long as no
    dictionary sits at two positions of it; only a reorder that repeats an
    id produces such a list, and it is not followed further here. *)
Record ImageData : Type := mk_image_data {
  file_id : string;
  original_bgr : option ndarray;
  name : string;
  settings : Settings
}.

(** [st.session_state]: the three keys the script owns and the three widget
    keys ([current_style], [current_brightness], [current_contrast]) that
    the callbacks read.  [file_ids] is [None] while the key is absent. *)
Record SessionState : Type := mk_session {
  file_ids : option (list string);
  images : list ImageData;
  current_index : Z;
  current_style : string;
  current_brightness : Z;
  current_contrast : Q
}.

(** One element of the list [st.file_uploader] returns. *)
Record UploadedFile : Type := mk_upload {
  upload_file_id : string;
  upload_name : string;
  upload_read : list Byte.byte
}.

Definition set_images (imgs : list ImageData) (st : SessionState)
  : SessionState :=
  {| file_ids := file_ids st; images := imgs;
     current_index := current_index st;
     current_style := current_style st;
     current_brightness := current_brightness st;
     current_contrast := current_contrast st |}.

Definition set_current_index (i : Z) (st : SessionState) : SessionState :=
  {| file_ids := file_ids st; images := images st;
     current_index := i;
     current_style := current_style st;
     current_brightness := current_brightness st;
     current_contrast := current_contrast st |}.

Definition set_settings (s : Settings) (d : ImageData) : ImageData :=
  {| file_id := file_id d; original_bgr := original_bgr d;
     name := name d; settings := s |}.

(** *** Python sequence and dictionary access *)

(** The position [l[i]] denotes: indices count from the end when negative,
    and anything outside [-len, len) is an [IndexError]. *)
Definition py_index {A} (l : list A) (i : Z) : option nat :=
  let n := Z.of_nat (length l) in
  if (0 <=? i) && (i <? n) then Some (Z.to_nat i)
  else if (- n <=? i) && (i <? 0) then Some (Z.to_nat (n + i))
  else None.

Definition py_getitem {A} (l : list A) (i : Z) : result (nat * A) :=
  match py_index l i with
  | Some k =>
      match l !! k with
      | Some x => Ok (k, x)
      | None => Raise IndexError
      end
  | None => Raise IndexError
  end.

(** [d[k]] on a dictionary with string keys. *)
Definition dict_getitem {V} (d : gmap string V) (k : string) : result V :=
  match d !! k with
  | Some v => Ok v
  | None => Raise (KeyError k)
  end.

(** ** Callbacks *)

Section Session.

(** [cv2.imdecode] on the bytes of an upload: an array, [None] for bytes
    it cannot decode, or an OpenCV error (an empty buffer). *)
Variable imdecode : list Byte.byte → result (option ndarray).

Definition new_image_data (up : UploadedFile) (bgr : option ndarray)
  : ImageData :=
  {| file_id := upload_file_id up;
     original_bgr := bgr;
     name := upload_name up;
     settings := default_settings |}.

(** The [for up in uploads] loop: [acc] is [st.session_state.images] as
    appended to so far; an exception leaves it as it is. *)
Fixpoint load_loop (uploads : list UploadedFile) (acc : list ImageData)
  : list ImageData * option exn :=
  match uploads with
  | [] => (acc, None)
  | up :: rest =>
      match imdecode (upload_read up) with
      | Raise e => (acc, Some e)
      | Ok bgr => load_loop rest (acc ++ [new_image_data up bgr])
      end
  end.

(** The test [ "file_ids" not in st.session_state or
    st.session_state.file_ids != current_file_ids ]: a comparison of
    Python lists. *)
Definition file_ids_changed (st : SessionState) (current_file_ids : list string)
  : bool :=
  match file_ids st with
  | None => true
  | Some ids => negb (bool_decide (ids = current_file_ids))
  end.

(** [initialize_state] writes the session state in place, so the state is
    returned together with the exception, if any, that ended the call. *)
Definition initialize_state (uploads : list UploadedFile) (st : SessionState)
  : SessionState * option exn :=
  let current_file_ids := map upload_file_id uploads in
  let '(st1, err) :=
    if file_ids_changed st current_file_ids then
      let '(imgs, err) := load_loop uploads [] in
      ({| file_ids := Some current_file_ids;
          images := imgs;
          current_index := 0;
          current_style := current_style st;
          current_brightness := current_brightness st;
          current_contrast := current_contrast st |}, err)
    else (st, None) in
  match err with
  | Some e => (st1, Some e)
  | None =>
      if Z.of_nat (length (images st1)) <=? current_index st1
      then (set_current_index 0 st1, None)
      else (st1, None)
  end.

End Session.

Definition next_image (st : SessionState) : SessionState :=
  if current_index st <? Z.of_nat (length (images st)) - 1
  then set_current_index (current_index st + 1) st
  else st.

Definition prev_image (st : SessionState) : SessionState :=
  if 0 <? current_index st
  then set_current_index (current_index st - 1) st
  else st.

Definition set_rotate (r : Z) (s : Settings) : Settings :=
  {| style := style s; brightness := brightness s;
     contrast := contrast s; rotate := r |}.

Definition rotate_current_image (st : SessionState) : result SessionState :=
  let idx := current_index st in
  '(k, d) ← py_getitem (images st) idx;
  let current_rotate := rotate (settings d) in
  let new_rotate := (current_rotate + 90) `mod` 360 in
  mret (set_images
          (<[k := set_settings (set_rotate new_rotate (settings d)) d]>
             (images st)) st).

Definition apply_to_all (st : SessionState) : result SessionState :=
  '(_, d) ← py_getitem (images st) (current_index st);
  let current_settings :=
    {| style := current_style st;
       brightness := current_brightness st;
       contrast := current_contrast st;
       rotate := rotate (settings d) |} in
  mret (set_images (map (set_settings current_settings) (images st)) st).

Definition update_current_image_settings (st : SessionState)
  : result SessionState :=
  let idx := current_index st in
  '(k, d) ← py_getitem (images st) idx;
  let s :=
    {| style := current_style st;
       brightness := current_brightness st;
       contrast := current_contrast st;
       rotate := rotate (settings d) |} in
  mret (set_images (<[k := set_settings s d]> (images st)) st).

(** ** The page reorder block *)

(** [{img['file_id']: img for img in st.session_state.images}]: a later
    image with the same id replaces an earlier one. *)
Definition image_data_map (imgs : list ImageData) : gmap string ImageData :=
  foldl (λ m img, <[file_id img := img]> m) ∅ imgs.

(** Lines 252 to 267 of the script, with [new_file_id_order] the ids of the
    rows the data editor returned.  Nothing is assigned when a lookup
    raises; after the assignment the script asks for a rerun. *)
Definition reorder_pages (new_file_id_order : list string) (st : SessionState)
  : result SessionState :=
  let old_file_id_order := map file_id (images st) in
  if bool_decide (old_file_id_order ≠ new_file_id_order) then
    new_image_data_list ←
      mapM (dict_getitem (image_data_map (images st))) new_file_id_order;
    mret (set_images new_image_data_list st)
  else mret st.

(** The state the script starts from (lines 143 to 146), with the widgets at
    the values they show for a fresh image. *)
Definition initial_session : SessionState :=
  {| file_ids := Some [];
     images := [];
     current_index := 0;
     current_style := "Original";
     current_brightness := 0;
     current_contrast := 1%Q |}.

(** ** The specification's vocabulary *)

Definition valid_rotation (r : Z) : Prop :=
  r = 0 ∨ r = 90 ∨ r = 180 ∨ r = 270.

Definition valid_style (s : string) : Prop :=
  s = "Original" ∨ s = "Black & White".

(** The declared ranges of the data model. *)
Definition valid_settings (s : Settings) : Prop :=
  valid_rotation (rotate s)
  ∧ -100 <= brightness s <= 100
  ∧ (0 <= contrast s)%Q ∧ (contrast s <= 3)%Q.

(** [l[i]] when it exists. *)
Definition py_get {A} (l : list A) (i : Z) : option A :=
  match py_getitem l i with
  | Ok (_, x) => Some x
  | Raise _ => None
  end.

(** The active Document: [images[current_index]]. *)
Definition active_document (st : SessionState) : option ImageData :=
  py_get (images st) (current_index st).

(** The settings dictionary [apply_to_all] and the setter build from the
    widget keys, with rotation [r]. *)
Definition widget_settings (st : SessionState) (r : Z) : Settings :=
  {| style := current_style st;
     brightness := current_brightness st;
     contrast := current_contrast st;
     rotate := r |}.

(** The widgets show the stored settings of [d]. *)
Definition widgets_show (st : SessionState) (d : ImageData) : Prop :=
  current_style st = style (settings d)
  ∧ current_brightness st = brightness (settings d)
  ∧ current_contrast st = contrast (settings d).

(** The rows of a colour raster after step 1 of [process_image]. *)
Definition rotated_rows {A} (r : Z) (rows : list (list A)) : list (list A) :=
  if r =? 90 then rotate_rows ROTATE_90_CLOCKWISE rows
  else if r =? 180 then rotate_rows ROTATE_180 rows
  else if r =? 270 then rotate_rows ROTATE_90_COUNTERCLOCKWISE rows
  else rows.

(** The rows of a colour raster after steps 1 and 2. *)
Definition adjusted_rows (c : list (list pixel)) (s : Settings)
  : list (list pixel) :=
  map_rows (map_channels (scale_abs_u8 (contrast s) (brightness s)))
    (rotated_rows (rotate s) c).



Section SpecifiedPipeline.

Variable luma : pixel → Z.
Variable clahe : Q → nat → list (list Z) → list (list Z).



(** The error clause of the pipeline, as the specification words it. *)
Definition render_rejects_invalid (bgr : ndarray) (s : Settings) : Prop :=
  ¬ valid_settings s → process_image luma clahe bgr s = Raise InvalidSettings.

End SpecifiedPipeline.

(** The error clause of the setter, as the specification words it: widget
    values outside the declared ranges are refused. *)
Definition setter_rejects_invalid (st : SessionState) : Prop :=
  ¬ (-100 <= current_brightness st <= 100
     ∧ (0 <= current_contrast st)%Q ∧ (current_contrast st <= 3)%Q) →
  update_current_image_settings st = Raise InvalidSettings.

(** [applyActiveSettingsToAll], as the specification words it: every
    Document ends with the settings the active Document had, and a second
    call changes nothing. *)
Definition applies_active_settings (st : SessionState) : Prop :=
  ∀ d, active_document st = Some d →
    ∃ st', apply_to_all st = Ok st'
      ∧ Forall (λ d', settings d' = settings d) (images st')
      ∧ apply_to_all st' = Ok st'.

(** [reorder], as the specification words its error clause: an id sequence
    that is not a permutation of the current ids fails with
    [InvalidReorder]. *)
Definition reorder_rejects_non_permutation (new_file_id_order : list string)
    (st : SessionState) : Prop :=
  ¬ new_file_id_order ≡ₚ map file_id (images st) →
  reorder_pages new_file_id_order st = Raise InvalidReorder.

(** [reorder], as the specification words the active index: after the
    reorder the active Document is the one that was active before. *)
Definition active_follows_document (new_file_id_order : list string)
    (st : SessionState) : Prop :=
  ∀ st', reorder_pages new_file_id_order st = Ok st' →
    active_document st' = active_document st.

(** Two id lists denote the same set. *)
Definition same_id_set (ids1 ids2 : list string) : Prop :=
  ∀ k, k ∈ ids1 ↔ k ∈ ids2.

Section SpecifiedLoad.

Variable imdecode : list Byte.byte → result (option ndarray).

(** [loadDocuments], as the specification words the unchanged case: a batch
    with the stored identifier set changes nothing. *)
Definition load_keeps_same_id_set (uploads : list UploadedFile)
    (st : SessionState) : Prop :=
  ∀ ids, file_ids st = Some ids →
    same_id_set ids (map upload_file_id uploads) →
    initialize_state imdecode uploads st = (st, None).

(** [cv2.imdecode] returns for the bytes of [up]. *)
Definition decodes (up : UploadedFile) : Prop :=
  ∃ bgr, imdecode (upload_read up) = Ok bgr.

(** [d] is the dictionary the loop appends for [up]: the id and name of the
    upload, what [cv2.imdecode] returned, and the default settings. *)
Definition loaded_from (up : UploadedFile) (d : ImageData) : Prop :=
  ∃ bgr, imdecode (upload_read up) = Ok bgr ∧ d = new_image_data up bgr.

(** The bytes of [up] do not decode: [cv2.imdecode] returns [None] or
    raises. *)
Definition decode_fails (up : UploadedFile) : Prop :=
  imdecode (upload_read up) = Ok None
  ∨ ∃ e, imdecode (upload_read up) = Raise e.

(** [loadDocuments], as the specification words its failure: a source that
    does not decode fails the load with a [DecodeError] naming it, and the
    session is as before. *)
Definition load_all_or_nothing (uploads : list UploadedFile)
    (st : SessionState) : Prop :=
  (∃ up, up ∈ uploads ∧ decode_fails up) →
  ∃ up, up ∈ uploads ∧ decode_fails up
        ∧ initialize_state imdecode uploads st
          = (st, Some (DecodeError (upload_name up))).

End SpecifiedLoad.

(** ** Stand-ins and sample data for the examples *)

(** The 8-bit fixed-point luminance of a BGR pixel, and a filter that
    leaves the raster alone in the place of CLAHE. *)
Definition example_luma (p : pixel) : Z :=
  let '(b, g, r) := p in
  Z.shiftr (b * 1868 + g * 9617 + r * 4899 + 8192) 14.

Definition example_clahe (clip : Q) (tiles : nat) (g : list (list Z))
  : list (list Z) := g.

(** A decoder that reads a one-byte file as a 1x1 raster of that grey
    level, raises on an empty buffer and returns [None] otherwise. *)
Definition example_imdecode (bytes : list Byte.byte)
  : result (option ndarray) :=
  match bytes with
  | [] => Raise cv2_error
  | [b] => let v := Z.of_N (Byte.to_N b) in Ok (Some (Color [[(v, v, v)]]))
  | _ => Ok None
  end.

Definition example_raster : ndarray := Color [[(10, 20, 30)]].

Definition doc_a : ImageData :=
  {| file_id := "id-a"; original_bgr := Some example_raster;
     name := "a.png"; settings := default_settings |}.

Definition doc_b : ImageData :=
  {| file_id := "id-b"; original_bgr := Some example_raster;
     name := "b.png";
     settings := {| style := "Black & White"; brightness := 20;
                    contrast := 1%Q; rotate := 90 |} |}.

(** Two documents loaded, the first one active, the widgets showing its
    settings. *)
Definition two_docs : SessionState :=
  {| file_ids := Some ["id-a"; "id-b"];
     images := [doc_a; doc_b];
     current_index := 0;
     current_style := "Original";
     current_brightness := 0;
     current_contrast := 1%Q |}.

(** One document, turned three times. *)
Definition doc_a_270 : ImageData :=
  set_settings (set_rotate 270 default_settings) doc_a.

Definition one_doc_270 : SessionState := set_images [doc_a_270] two_docs.

(** The second document active while the widgets still show the values of
    the first. *)
Definition two_docs_second_active : SessionState :=
  {| file_ids := Some ["id-a"; "id-b"];
     images := [doc_a; doc_b];
     current_index := 1;
     current_style := "Original";
     current_brightness := 0;
     current_contrast := 1%Q |}.

(** The brightness widget holding a value outside the declared range. *)
Definition two_docs_brightness_500 : SessionState :=
  {| file_ids := Some ["id-a"; "id-b"];
     images := [doc_a; doc_b];
     current_index := 0;
     current_style := "Original";
     current_brightness := 500;
     current_contrast := 1%Q |}.

Definition settings_brightness_500 : Settings :=
  {| style := "Original"; brightness := 500; contrast := 1%Q; rotate := 45 |}.

Definition settings_darken : Settings :=
  {| style := "Original"; brightness := -100; contrast := 1%Q; rotate := 0 |}.

Definition upload_a : UploadedFile :=
  {| upload_file_id := "id-a"; upload_name := "a.png";
     upload_read := [Byte.x37] |}.

Definition upload_b : UploadedFile :=
  {| upload_file_id := "id-b"; upload_name := "b.png";
     upload_read := [Byte.x39] |}.

(** An upload of zero bytes. *)
Definition upload_empty : UploadedFile :=
  {| upload_file_id := "id-e"; upload_name := "empty.png";
     upload_read := [] |}.

(** An upload whose bytes are not an image. *)
Definition upload_bad : UploadedFile :=
  {| upload_file_id := "id-x"; upload_name := "notes.png";
     upload_read := [Byte.x6e; Byte.x6f] |}.

(** ** The PDF loop of the script and further vocabulary *)

Section PdfPages.

Variable luma : pixel → Z.
Variable clahe : Q → nat → list (list Z) → list (list Z).

(** [process_image(None, settings)]: what the OpenCV calls of the pipeline
    make of [None] in place of an array is decided by the library, not by
    this source, so the outcome of the pipeline on an image that
    [cv2.imdecode] left as [None] is a parameter and nothing is assumed
    about it. *)
Variable process_image_None : Settings → result pil_image.

(** The call [process_image(img_data["original_bgr"], img_data["settings"])]
    of the loop. *)
Definition render_page (img_data : ImageData) : result pil_image :=
  match original_bgr img_data with
  | Some bgr => process_image luma clahe bgr (settings img_data)
  | None => process_image_None (settings img_data)
  end.

(** Lines 271 to 275: [pdf_pages], one page per image in list order; the
    first exception ends the loop. *)
Definition pdf_pages (st : SessionState) : result (list pil_image) :=
  mapM render_page (images st).

End PdfPages.

(** A [uint8] value, pixel and raster. *)
Definition is_u8 (v : Z) : Prop := 0 <= v <= 255.

Definition pixel_u8 (p : pixel) : Prop :=
  is_u8 p.1.1 ∧ is_u8 p.1.2 ∧ is_u8 p.2.

Definition raster_u8 (c : list (list pixel)) : Prop :=
  Forall (Forall pixel_u8) c.

(** [img.shape[:2]]: height and width. *)
Definition rows_shape {A} (rows : list (list A)) : nat * nat :=
  (length rows, match rows with r :: _ => length r | [] => 0%nat end).

(** [im.size] of a PIL image: width and height. *)
Definition pil_size (im : pil_image) : nat * nat :=
  match im with
  | PIL_L g => ((rows_shape g).2, (rows_shape g).1)
  | PIL_RGB c => ((rows_shape c).2, (rows_shape c).1)
  end.

(** The pixel rows of a PIL image in mode RGB. *)
Definition rgb_rows (im : pil_image) : list (list pixel) :=
  match im with
  | PIL_L _ => []
  | PIL_RGB c => c
  end.

(** The dictionary of the active image after [rotate_current_image]. *)
Definition rotated_document (d : ImageData) : ImageData :=
  set_settings (set_rotate ((rotate (settings d) + 90) `mod` 360) (settings d)) d.

(** An image the pipeline can render: decoded to a colour raster, with a
    style of the enumeration. *)
Definition renderable (d : ImageData) : Prop :=
  ∃ bgr, original_bgr d = Some bgr
         ∧ is_bgr bgr = true
         ∧ valid_style (style (settings d)).

(** Every Document of the state stores one of the four rotations. *)
Definition rotations_valid (st : SessionState) : Prop :=
  Forall (λ d, valid_rotation (rotate (settings d))) (images st).

(** The active index points into the document list. *)
Definition index_valid (st : SessionState) : Prop :=
  0 <= current_index st < Z.of_nat (length (images st)).

(** A stand-in for the pipeline on [None]: the first OpenCV call refuses
    its argument. *)
Definition example_process_image_None (_ : Settings) : result pil_image :=
  Raise cv2_error.

(** A decoded document whose stored style is not one of the two the
    pipeline knows. *)
Definition doc_sepia : ImageData :=
  {| file_id := "id-s"; original_bgr := Some example_raster;
     name := "s.png";
     settings := {| style := "Sepia"; brightness := 0; contrast := 1%Q;
                    rotate := 0 |} |}.

(** A second document with the id of [doc_a]. *)
Definition doc_a_again : ImageData :=
  {| file_id := "id-a"; original_bgr := None;
     name := "a-copy.png"; settings := default_settings |}.

(** Three documents, the middle one active. *)
Definition doc_c : ImageData :=
  {| file_id := "id-c"; original_bgr := Some (Color [[(1, 2, 3); (4, 5, 6)]]);
     name := "c.png"; settings := default_settings |}.

Definition three_docs : SessionState :=
  {| file_ids := Some ["id-a"; "id-b"; "id-c"];
     images := [doc_a; doc_b; doc_c];
     current_index := 1;
     current_style := "Black & White";
     current_brightness := 20;
     current_contrast := 1%Q |}.

(** * Properties *)

(** ** Rasters keep their shape through the pipeline *)

Lemma zip_cons_rect {A} (m : nat) (col : list A) (rows : list (list A)) :
  length col = length rows →
  Forall (λ r, length r = m) rows →
  length (zip_cons col rows) = length col
  ∧ Forall (λ r, length r = S m) (zip_cons col rows).
Proof.
  revert rows. induction col as [|x col IH]; intros [|r rows] Hlen Hall;
    simpl in *; try discriminate; try (split; [reflexivity | constructor]).
  inversion Hall as [|? ? Hr Hrows]; subst.
  destruct (IH rows) as [IHlen IHall]; [lia | assumption |].
  split; [lia |]. constructor; [reflexivity | assumption].
Qed.

Lemma transpose_rect {A} (n : nat) (rows : list (list A)) :
  rows ≠ [] →
  Forall (λ r, length r = n) rows →
  length (transpose rows) = n
  ∧ Forall (λ c, length c = length rows) (transpose rows).
Proof.
  induction rows as [|r rest IH]; intros Hne Hall; [congruence |].
  inversion Hall as [|? ? Hr Hrest]; subst.
  destruct rest as [|r' rest'].
  - simpl. rewrite length_map. split; [reflexivity |].
    apply Forall_forall. intros c Hc. apply list_elem_of_In in Hc.
    apply in_map_iff in Hc as (x & <- & _). reflexivity.
  - destruct IH as [IHlen IHall]; [congruence | assumption |].
    change (transpose (r :: r' :: rest'))
      with (zip_cons r (transpose (r' :: rest'))).
    destruct (zip_cons_rect (length (r' :: rest')) r (transpose (r' :: rest')))
      as [Hl Hf]; [congruence | assumption |].
    split; [exact Hl | exact Hf].
Qed.

Lemma raster_ok_spec {A} (rows : list (list A)) :
  raster_ok rows = true ↔
  ∃ n, (0 < n)%nat ∧ rows ≠ [] ∧ Forall (λ r, length r = n) rows.
Proof.
  destruct rows as [|r rest]; simpl.
  - split; [discriminate | intros (n & _ & H & _); congruence].
  - rewrite andb_true_iff, negb_true_iff, Nat.eqb_neq, forallb_forall.
    split.
    + intros [Hr Hrest]. exists (length r). split; [lia |].
      split; [discriminate |]. constructor; [reflexivity |].
      apply Forall_forall. intros x Hx. apply list_elem_of_In in Hx.
      apply Nat.eqb_eq. auto.
    + intros (n & Hn & _ & Hall).
      inversion Hall as [|? ? Hr Hrest]; subst. split; [lia |].
      intros x Hx. apply Nat.eqb_eq.
      rewrite Forall_forall in Hrest. apply Hrest.
      apply list_elem_of_In. exact Hx.
Qed.

Lemma raster_ok_rotate_rows {A} (code : rotate_code) (rows : list (list A)) :
  raster_ok rows = true → raster_ok (rotate_rows code rows) = true.
Proof.
  rewrite !raster_ok_spec. intros (n & Hn & Hne & Hall).
  assert (Hlen : (0 < length rows)%nat) by (destruct rows; simpl; [congruence | lia]).
  destruct code; simpl.
  - assert (Hrev : rev rows ≠ []).
    { intros E. apply (f_equal length) in E. rewrite length_rev in E.
      simpl in E. lia. }
    destruct (transpose_rect n (rev rows) Hrev) as [Hl Hf].
    { apply Forall_forall. intros r Hr. rewrite Forall_forall in Hall.
      apply Hall. apply list_elem_of_In. apply in_rev.
      apply list_elem_of_In. exact Hr. }
    exists (length rows). split; [exact Hlen |]. split.
    + intros E. rewrite E in Hl. simpl in Hl. lia.
    + rewrite length_rev in Hf. exact Hf.
  - exists n. split; [exact Hn |]. split.
    + intros E. apply (f_equal length) in E.
      rewrite length_rev, length_map in E. simpl in E. lia.
    + apply Forall_forall. intros r Hr. apply list_elem_of_In in Hr.
      apply in_rev in Hr. rewrite ?rev_involutive in Hr.
      apply in_map_iff in Hr as (r0 & <- & Hr0). rewrite length_rev.
      rewrite Forall_forall in Hall. apply Hall. apply list_elem_of_In.
      exact Hr0.
  - destruct (transpose_rect n rows Hne Hall) as [Hl Hf].
    exists (length rows). split; [exact Hlen |]. split.
    + intros E. apply (f_equal length) in E. rewrite length_rev in E.
      rewrite Hl in E. simpl in E. lia.
    + apply Forall_forall. intros r Hr. apply list_elem_of_In in Hr.
      apply in_rev in Hr. rewrite ?rev_involutive in Hr.
      rewrite Forall_forall in Hf. apply Hf. apply list_elem_of_In.
      exact Hr.
Qed.

Lemma raster_ok_map_rows {A B} (f : A → B) (rows : list (list A)) :
  raster_ok rows = true → raster_ok (map_rows f rows) = true.
Proof.
  destruct rows as [|r rest]; simpl; [discriminate |].
  rewrite !andb_true_iff, !forallb_forall, length_map.
  intros [Hr Hrest]. split; [exact Hr |].
  intros x Hx. apply in_map_iff in Hx as (r0 & <- & Hr0).
  rewrite length_map. apply Hrest. exact Hr0.
Qed.

Lemma raster_ok_not_empty {A} (rows : list (list A)) :
  raster_ok rows = true → rows_empty rows = false.
Proof.
  destruct rows as [|[|x r] rest]; simpl; try discriminate. reflexivity.
Qed.

(** A 2x3 raster turned clockwise: the first column, read upwards, becomes
    the first row. *)
Example rotate_clockwise_2x3 :
  rotate_rows ROTATE_90_CLOCKWISE [[1; 2; 3]; [4; 5; 6]]
  = [[4; 1]; [5; 2]; [6; 3]].
Proof. reflexivity. Qed.

Example rotate_counterclockwise_2x3 :
  rotate_rows ROTATE_90_COUNTERCLOCKWISE [[1; 2; 3]; [4; 5; 6]]
  = [[3; 6]; [2; 5]; [1; 4]].
Proof. reflexivity. Qed.

Example rotate_180_2x3 :
  rotate_rows ROTATE_180 [[1; 2; 3]; [4; 5; 6]] = [[6; 5; 4]; [3; 2; 1]].
Proof. reflexivity. Qed.

(** Ties go to the even neighbour, values above 255 saturate, and a
    negative affine value is mirrored before it is cast. *)
Example scale_abs_u8_ties : scale_abs_u8 (3 # 2) 0 3 = 4 ∧ scale_abs_u8 (3 # 2) 0 5 = 8.
Proof. split; reflexivity. Qed.

Example scale_abs_u8_saturates : scale_abs_u8 3 100 200 = 255.
Proof. reflexivity. Qed.

Example scale_abs_u8_mirrors : scale_abs_u8 1 (-100) 10 = 90.
Proof. reflexivity. Qed.

Lemma raster_ok_rotated_rows {A} (r : Z) (rows : list (list A)) :
  raster_ok rows = true → raster_ok (rotated_rows r rows) = true.
Proof.
  intros H. unfold rotated_rows.
  repeat case_match; try apply raster_ok_rotate_rows; exact H.
Qed.

(** ** Single-precision arithmetic of [convertScaleAbs] *)

(** The example of a tie that the float product moves: 95 * 0.3 is 28.5 in
    the rationals and 28.500002 in single precision. *)
Example scale_abs_u8_float_tie : scale_abs_u8 (3 # 10) 0 95 = 29.
Proof. vm_compute. reflexivity. Qed.

Example f32_round_three_tenths : f32_round (3 # 10) = (5033165 # 16777216)%Q.
Proof. vm_compute. reflexivity. Qed.

Lemma cvRound_near (q : Q) :
  (inject_Z (cvRound q) - (1 # 2) <= q)%Q ∧ (q <= inject_Z (cvRound q) + (1 # 2))%Q.
Proof.
  destruct q as [n d]. unfold cvRound. simpl.
  pose proof (Z.div_mod n (Zpos d) ltac:(lia)) as Hdm.
  pose proof (Z.mod_pos_bound n (Zpos d) ltac:(lia)) as Hr.
  set (k := n `div` Z.pos d) in *. set (r := n `mod` Z.pos d) in *.
  assert (Hk : ∀ c, (c = k ∨ c = k + 1) →
            (c = k → 2 * r <= Zpos d) → (c = k + 1 → Zpos d <= 2 * r) →
            (inject_Z c - (1 # 2) <= n # d)%Q ∧ (n # d <= inject_Z c + (1 # 2))%Q).
  { intros c Hc H1 H2. unfold Qle, Qminus, Qplus, Qopp, inject_Z. simpl.
    rewrite !Pos2Z.inj_mul. nia. }
  destruct (Z.ltb_spec (2 * r) (Zpos d)); [apply Hk; auto; lia |].
  destruct (Z.ltb_spec (Zpos d) (2 * r)); [apply Hk; auto; lia |].
  destruct (Z.even k); apply Hk; auto; lia.
Qed.

Lemma pow2_pos (e : Z) : (0 < pow2 e)%Q.
Proof. apply Qpower_0_lt. reflexivity. Qed.

Lemma pow2_add (e1 e2 : Z) : (pow2 (e1 + e2) == pow2 e1 * pow2 e2)%Q.
Proof. apply Qpower_plus. discriminate. Qed.

Lemma pow2_nonneg_Z (e : Z) : 0 <= e → (pow2 e == inject_Z (2 ^ e))%Q.
Proof. intros H. unfold pow2. rewrite Zpower_Qpower by exact H. reflexivity. Qed.

Lemma binade_le (q : Q) : ¬ (q == 0)%Q → (pow2 (binade q) <= Qabs q)%Q.
Proof.
  intros Hq. unfold binade.
  set (n := Z.abs (Qnum q)). set (d := Zpos (Qden q)).
  destruct (Qle_bool (pow2 (Z.log2 n - Z.log2 d)) (Qabs q)) eqn:E.
  - apply Qle_bool_iff. exact E.
  - clear E.
    assert (Hn : 0 < n).
    { unfold n. destruct q as [[|p|p] dd]; simpl; try lia.
      exfalso. apply Hq. reflexivity. }
    destruct (Z.log2_spec n Hn) as [Hn1 _].
    destruct (Z.log2_spec d ltac:(unfold d; lia)) as [_ Hd2].
    pose proof (Z.log2_nonneg n) as Hln. pose proof (Z.log2_nonneg d) as Hld.
    assert (Hsplit : (pow2 (Z.log2 n - Z.log2 d - 1) * inject_Z (2 ^ (Z.succ (Z.log2 d)))
                      == inject_Z (2 ^ Z.log2 n))%Q).
    { rewrite <- !pow2_nonneg_Z by lia. rewrite <- pow2_add.
      replace (Z.log2 n - Z.log2 d - 1 + Z.succ (Z.log2 d)) with (Z.log2 n) by lia.
      reflexivity. }
    assert (Hp : (0 < pow2 (Z.log2 n - Z.log2 d - 1))%Q) by apply pow2_pos.
    assert (Habs : Qabs q = n # Qden q) by (destruct q; reflexivity).
    rewrite Habs.
    set (P := pow2 (Z.log2 n - Z.log2 d - 1)) in *.
    set (A := 2 ^ Z.succ (Z.log2 d)) in *. set (B := 2 ^ Z.log2 n) in *.
    assert (HA : (0 < inject_Z A)%Q).
    { unfold Qlt, inject_Z. simpl. lia. }
    assert (Hd : (inject_Z d <= inject_Z A)%Q).
    { unfold Qle, inject_Z. simpl. lia. }
    assert (HB : (inject_Z B <= inject_Z n)%Q).
    { unfold Qle, inject_Z. simpl. lia. }
    assert (Hnd : (n # Qden q == inject_Z n / inject_Z d)%Q).
    { unfold d. rewrite (Qmake_Qdiv n (Qden q)). reflexivity. }
    rewrite Hnd.
    assert (Hd0 : (0 < inject_Z d)%Q).
    { unfold Qlt, inject_Z, d. simpl. lia. }
    apply Qle_shift_div_l; [exact Hd0 |].
    apply Qle_trans with (P * inject_Z A)%Q.
    + apply Qmult_le_l; [exact Hp | exact Hd].
    + rewrite Hsplit. exact HB.
Qed.

Lemma f32_round_near (q B : Q) :
  (Qabs q <= B)%Q →
  (q - B * f32_eps <= f32_round q)%Q ∧ (f32_round q <= q + B * f32_eps)%Q.
Proof.
  intros HB.
  assert (HB0 : (0 <= B)%Q) by (eapply Qle_trans; [apply Qabs_nonneg | exact HB]).
  unfold f32_round. destruct (Qeq_bool q 0) eqn:E.
  - apply Qeq_bool_iff in E. rewrite E. unfold f32_eps. split; lra.
  - apply Qeq_bool_neq in E. rewrite Qred_correct.
    set (e := binade q). set (ulp := pow2 (e - 23)).
    assert (Hulp : (0 < ulp)%Q) by apply pow2_pos.
    destruct (cvRound_near (q / ulp)) as [H1 H2].
    set (M := inject_Z (cvRound (q / ulp))) in *.
    assert (Hq : (q / ulp * ulp == q)%Q).
    { field. intros Hz. rewrite Hz in Hulp. apply (Qlt_irrefl 0 Hulp). }
    assert (Hu : (ulp * (1 # 2) == pow2 e * f32_eps)%Q).
    { unfold ulp. replace (e - 23) with (e + -23) by lia.
      rewrite pow2_add. unfold f32_eps.
      assert (pow2 (-23) == 1 # 8388608)%Q as -> by reflexivity.
      field. }
    pose proof (binade_le q E) as Hle. fold e in Hle.
    assert (Hpe : (pow2 e * f32_eps <= B * f32_eps)%Q).
    { apply Qmult_le_compat_r; [eapply Qle_trans; eauto | unfold f32_eps; lra]. }
    assert (H1' : ((M - (1 # 2)) * ulp <= q / ulp * ulp)%Q).
    { apply Qmult_le_compat_r; [exact H1 | lra]. }
    assert (H2' : (q / ulp * ulp <= (M + (1 # 2)) * ulp)%Q).
    { apply Qmult_le_compat_r; [exact H2 | lra]. }
    rewrite Hq in H1', H2'.
    split; lra.
Qed.

Lemma inject_Z_bounds (z lo hi : Z) :
  lo <= z <= hi → (inject_Z lo <= inject_Z z)%Q ∧ (inject_Z z <= inject_Z hi)%Q.
Proof. intros H. unfold Qle, inject_Z. simpl. lia. Qed.

Lemma f32_round_nonneg_near (q : Q) :
  (0 <= q)%Q →
  (q - q * f32_eps <= f32_round q)%Q ∧ (f32_round q <= q + q * f32_eps)%Q.
Proof.
  intros H. apply f32_round_near. rewrite Qabs_pos by exact H. apply Qle_refl.
Qed.

Lemma affine_f32_near (alpha : Q) (beta v : Z) :
  (0 <= alpha)%Q → (alpha <= 16)%Q → -4096 <= beta <= 4096 → 0 <= v <= 255 →
  (scaled alpha beta v - (1 # 500)
   <= f32_round (f32_round (inject_Z v * f32_round alpha)
                 + f32_round (inject_Z beta)))%Q
  ∧ (f32_round (f32_round (inject_Z v * f32_round alpha)
                + f32_round (inject_Z beta))
     <= scaled alpha beta v + (1 # 500))%Q.
Proof.
  intros Ha0 Ha1 Hb Hv. unfold scaled.
  destruct (f32_round_nonneg_near alpha Ha0) as [HA1 HA2].
  set (A := f32_round alpha) in *.
  destruct (inject_Z_bounds v 0 255 Hv) as [HV1 HV2].
  destruct (inject_Z_bounds beta (-4096) 4096 Hb) as [HB1 HB2].
  set (V := inject_Z v) in *. set (Bz := inject_Z beta) in *.
  change (inject_Z 0) with 0%Q in HV1. change (inject_Z 255) with 255%Q in HV2.
  change (inject_Z (-4096)) with (-4096)%Q in HB1.
  change (inject_Z 4096) with 4096%Q in HB2.
  unfold f32_eps in *.
  assert (HA0 : (0 <= A)%Q) by lra.
  assert (HW0 : (0 <= V * A)%Q) by (apply Qmult_le_0_compat; assumption).
  assert (HW1 : (V * A <= 255 * A)%Q).
  { apply Qmult_le_compat_r; assumption. }
  assert (HWa1 : (V * A - V * alpha <= 255 * ((16 # 1) * (1 # 16777216)))%Q) by nra.
  assert (HWa2 : (- (255 * ((16 # 1) * (1 # 16777216))) <= V * A - V * alpha)%Q) by nra.
  destruct (f32_round_nonneg_near (V * A) HW0) as [HP1 HP2].
  set (W := (V * A)%Q) in *. set (P := f32_round W) in *.
  unfold f32_eps in *.
  assert (HBq : (Qabs Bz <= 4096)%Q) by (apply Qabs_Qle_condition; split; lra).
  destruct (f32_round_near Bz 4096 HBq) as [HQ1 HQ2].
  set (Bq := f32_round Bz) in *. unfold f32_eps in *.
  assert (HS : (Qabs (P + Bq) <= 8200)%Q) by (apply Qabs_Qle_condition; split; lra).
  destruct (f32_round_near (P + Bq) 8200 HS) as [HS1 HS2].
  unfold f32_eps in *. set (Va := (V * alpha)%Q) in *.
  split; lra.
Qed.

Lemma Z_of_Q_lt (a b : Z) : (inject_Z a < inject_Z b)%Q → a < b.
Proof. unfold Qlt, inject_Z. simpl. lia. Qed.

Lemma scale_abs_u8_near (alpha : Q) (beta v : Z) :
  (0 <= alpha)%Q → (alpha <= 16)%Q → -4096 <= beta <= 4096 → 0 <= v <= 255 →
  ((Qabs (scaled alpha beta v) <= 255)%Q →
   (Qabs (scaled alpha beta v) - (251 # 500)
      <= inject_Z (scale_abs_u8 alpha beta v))%Q
   ∧ (inject_Z (scale_abs_u8 alpha beta v)
      <= Qabs (scaled alpha beta v) + (251 # 500))%Q)
  ∧ ((255 <= Qabs (scaled alpha beta v))%Q → scale_abs_u8 alpha beta v = 255).
Proof.
  intros Ha0 Ha1 Hb Hv.
  destruct (affine_f32_near alpha beta v Ha0 Ha1 Hb Hv) as [H1 H2].
  unfold scale_abs_u8.
  set (S := f32_round (f32_round (inject_Z v * f32_round alpha)
                       + f32_round (inject_Z beta))) in *.
  set (x := scaled alpha beta v) in *.
  assert (Hd : (Qabs (S - x) <= 1 # 500)%Q) by (apply Qabs_Qle_condition; split; lra).
  pose proof (Qabs_triangle_reverse S x) as T1.
  pose proof (Qabs_triangle_reverse x S) as T2.
  assert (Hsym : (Qabs (x - S) == Qabs (S - x))%Q).
  { rewrite <- Qabs_opp. apply Qabs_wd. ring. }
  rewrite Hsym in T2.
  destruct (cvRound_near (Qabs S)) as [R1 R2].
  set (R := cvRound (Qabs S)) in *.
  pose proof (Qabs_nonneg S) as HS0.
  assert (HR0 : 0 <= R).
  { assert (-1 < R); [| lia]. apply Z_of_Q_lt. change (inject_Z (-1)) with (-1)%Q. lra. }
  split.
  - intros Hx.
    assert (HR1 : R <= 255).
    { assert (R < 256); [| lia]. apply Z_of_Q_lt. change (inject_Z 256) with 256%Q. lra. }
    unfold saturate_u8. rewrite Z.min_r, Z.max_r by lia. split; lra.
  - intros Hx.
    assert (HR1 : 254 < R).
    { apply Z_of_Q_lt. change (inject_Z 254) with 254%Q. lra. }
    unfold saturate_u8. lia.
Qed.

Lemma scale_abs_u8_integer (alpha : Q) (beta v z : Z) :
  (0 <= alpha)%Q → (alpha <= 16)%Q → -4096 <= beta <= 4096 → 0 <= v <= 255 →
  (scaled alpha beta v == inject_Z z)%Q →
  scale_abs_u8 alpha beta v = Z.min 255 (Z.abs z).
Proof.
  intros Ha0 Ha1 Hb Hv Hz.
  destruct (scale_abs_u8_near alpha beta v Ha0 Ha1 Hb Hv) as [Hin Hout].
  assert (Habs : (Qabs (scaled alpha beta v) == inject_Z (Z.abs z))%Q).
  { rewrite Hz. destruct z; reflexivity. }
  rewrite Habs in Hin, Hout.
  destruct (Z.le_gt_cases (Z.abs z) 255) as [Hle | Hgt].
  - rewrite Z.min_r by lia.
    destruct Hin as [L U].
    { destruct (inject_Z_bounds (Z.abs z) 0 255 ltac:(lia)) as [_ H]. exact H. }
    set (r := scale_abs_u8 alpha beta v) in *.
    assert (r < Z.abs z + 1).
    { apply Z_of_Q_lt. rewrite inject_Z_plus. change (inject_Z 1) with 1%Q. lra. }
    assert (Z.abs z < r + 1).
    { apply Z_of_Q_lt. rewrite inject_Z_plus. change (inject_Z 1) with 1%Q. lra. }
    lia.
  - rewrite Z.min_l by lia. apply Hout.
    destruct (inject_Z_bounds 255 255 (Z.abs z) ltac:(lia)) as [_ H]. exact H.
Qed.


Section PipelineFacts.

Variable luma : pixel → Z.
Variable clahe : Q → nat → list (list Z) → list (list Z).

Lemma rotate_step_color (c : list (list pixel)) (s : Settings) :
  rotate_step (Color c) s = Color (rotated_rows (rotate s) c).
Proof.
  unfold rotate_step, rotated_rows. repeat case_match; reflexivity.
Qed.

Lemma adjusted_rows_ok (c : list (list pixel)) (s : Settings) :
  raster_ok c = true → rows_empty (adjusted_rows c s) = false.
Proof.
  intros H. apply raster_ok_not_empty, raster_ok_map_rows,
    raster_ok_rotated_rows, H.
Qed.

(** [process_image] on a colour raster, path by path. *)
Lemma process_image_color (c : list (list pixel)) (s : Settings) :
  raster_ok c = true →
  process_image luma clahe (Color c) s =
    if String.eqb (style s) "Black & White" then
      Ok (PIL_RGB (map_rows (λ v, (v, v, v))
                     (clahe 2%Q 8%nat
                        (map_rows luma (adjusted_rows c s)))))
    else if String.eqb (style s) "Original" then
      Ok (PIL_RGB (map_rows swap_br (adjusted_rows c s)))
    else Raise (NameError "processed_img").
Proof.
  intros H. pose proof (adjusted_rows_ok c s H) as Hne.
  unfold process_image, style_step, to_gray,
    adjust_brightness_contrast.
  rewrite rotate_step_color. simpl cv2_convertScaleAbs.
  fold (adjusted_rows c s).
  destruct (String.eqb (style s) "Black & White").
  - simpl. rewrite Hne. reflexivity.
  - destruct (String.eqb (style s) "Original").
    + simpl. rewrite Hne. reflexivity.
    + reflexivity.
Qed.

Lemma style_step_unbound (a : ndarray) (s : Settings) :
  ¬ valid_style (style s) → style_step luma clahe a s = Ok None.
Proof.
  intros H. unfold style_step.
  destruct (String.eqb_spec (style s) "Black & White") as [E|_].
  { exfalso. apply H. right. exact E. }
  destruct (String.eqb_spec (style s) "Original") as [E|_].
  { exfalso. apply H. left. exact E. }
  reflexivity.
Qed.

(** C10: [processed_img] is bound only inside the two style branches.  For
    a decoded colour raster and a style among "Original" and
    "Black & White" the function returns an image; for any other style the
    name is never bound and the function raises the [NameError] for
    [processed_img]. *)
Theorem process_image_defined_iff_style_known (bgr : ndarray) (s : Settings) :
  is_bgr bgr = true →
  (valid_style (style s) → ∃ out, process_image luma clahe bgr s = Ok out)
  ∧ (¬ valid_style (style s) →
     style_step luma clahe
       (adjust_brightness_contrast (rotate_step bgr s)
          (brightness s) (contrast s)) s = Ok None
     ∧ process_image luma clahe bgr s = Raise (NameError "processed_img")).
Proof.
  destruct bgr as [g|c]; simpl; [discriminate |]. intros Hok.
  rewrite (process_image_color c s Hok). split.
  - intros [E|E]; rewrite E; simpl; eexists; reflexivity.
  - intros Hbad. split; [apply style_step_unbound, Hbad |].
    destruct (String.eqb_spec (style s) "Black & White") as [E|_].
    { exfalso. apply Hbad. right. exact E. }
    destruct (String.eqb_spec (style s) "Original") as [E|_].
    { exfalso. apply Hbad. left. exact E. }
    reflexivity.
Qed.


Lemma process_image_never_InvalidSettings (bgr : ndarray) (s : Settings) :
  process_image luma clahe bgr s ≠ Raise InvalidSettings.
Proof.
  unfold process_image, style_step, to_gray, enhance_contrast, cv2_cvtColor.
  repeat (case_match; simpl; try discriminate).
Qed.

End PipelineFacts.

(** ** Python indexing *)

Lemma py_index_lt {A} (l : list A) (i : Z) (k : nat) :
  py_index l i = Some k → (k < length l)%nat.
Proof.
  unfold py_index. repeat case_match; intros [= <-]; lia.
Qed.

Lemma py_index_nonneg {A} (l : list A) (i : Z) :
  0 <= i < Z.of_nat (length l) → py_index l i = Some (Z.to_nat i).
Proof.
  intros H. unfold py_index.
  destruct (0 <=? i) eqn:E1; [| lia].
  destruct (i <? Z.of_nat (length l)) eqn:E2; [reflexivity | lia].
Qed.

Lemma py_getitem_Ok {A} (l : list A) (i : Z) (k : nat) (x : A) :
  py_getitem l i = Ok (k, x) ↔ py_index l i = Some k ∧ l !! k = Some x.
Proof.
  unfold py_getitem. destruct (py_index l i) as [k'|].
  - destruct (l !! k') as [x'|] eqn:E.
    + split; [intros [= <- <-]; auto | intros [[= <-] H]; congruence].
    + split; [discriminate | intros [[= <-] H]; congruence].
  - split; [discriminate | intros [[=] _]].
Qed.

Lemma py_getitem_map {A B} (f : A → B) (l : list A) (i : Z) (k : nat) (x : A) :
  py_getitem l i = Ok (k, x) → py_getitem (map f l) i = Ok (k, f x).
Proof.
  rewrite !py_getitem_Ok. intros [Hi Hk]. split.
  - unfold py_index in *. rewrite length_map. exact Hi.
  - rewrite list_lookup_fmap, Hk. reflexivity.
Qed.

Lemma py_getitem_insert {A} (l : list A) (i : Z) (k : nat) (x y : A) :
  py_getitem l i = Ok (k, x) → py_getitem (<[k := y]> l) i = Ok (k, y).
Proof.
  rewrite !py_getitem_Ok. intros [Hi Hk]. split.
  - unfold py_index in *. rewrite length_insert. exact Hi.
  - apply list_lookup_insert_eq. eapply py_index_lt, Hi.
Qed.

Lemma active_document_Some (st : SessionState) (d : ImageData) :
  active_document st = Some d ↔
  ∃ k, py_getitem (images st) (current_index st) = Ok (k, d).
Proof.
  unfold active_document, py_get.
  destruct (py_getitem (images st) (current_index st)) as [[k d']|e].
  - split; [intros [= <-]; eauto | intros [k' [= <- <-]]; reflexivity].
  - split; [discriminate | intros [k' [=]]].
Qed.

(** ** Rotation *)

Lemma valid_rotation_step (r : Z) :
  valid_rotation r → valid_rotation ((r + 90) `mod` 360).
Proof.
  unfold valid_rotation.
  intros [-> | [-> | [-> | ->]]]; vm_compute; auto.
Qed.

(** C9: when the active Document's rotation is one of 0, 90, 180, 270,
    [rotate_current_image] stores [(rotation + 90) mod 360] in it: the new
    value is again one of the four, 270 wraps to 0, the other settings and
    the other Documents stay as they were, and a state in which every
    Document has a valid rotation is taken to such a state. *)
Theorem rotate_current_image_advances_mod_360
    (st : SessionState) (d : ImageData) :
  active_document st = Some d →
  valid_rotation (rotate (settings d)) →
  ∃ st' k d',
    rotate_current_image st = Ok st'
    ∧ py_index (images st) (current_index st) = Some k
    ∧ images st' = <[k := d']> (images st)
    ∧ active_document st' = Some d'
    ∧ rotate (settings d') = (rotate (settings d) + 90) `mod` 360
    ∧ valid_rotation (rotate (settings d'))
    ∧ (rotate (settings d) = 270 → rotate (settings d') = 0)
    ∧ (file_id d', original_bgr d', name d') = (file_id d, original_bgr d, name d)
    ∧ (style (settings d'), brightness (settings d'), contrast (settings d'))
      = (style (settings d), brightness (settings d), contrast (settings d))
    ∧ (∀ j, j ≠ k → images st' !! j = images st !! j)
    ∧ current_index st' = current_index st
    ∧ (Forall (λ x, valid_rotation (rotate (settings x))) (images st) →
       Forall (λ x, valid_rotation (rotate (settings x))) (images st')).
Proof.
  intros Hact Hrot. apply active_document_Some in Hact as [k Hget].
  pose proof Hget as Hget'. apply py_getitem_Ok in Hget' as [Hidx Hk].
  set (d' := set_settings
               (set_rotate ((rotate (settings d) + 90) `mod` 360) (settings d)) d).
  exists (set_images (<[k := d']> (images st)) st), k, d'.
  split. { unfold rotate_current_image. rewrite Hget. reflexivity. }
  split; [exact Hidx |]. split; [reflexivity |].
  split. { apply active_document_Some. exists k. simpl.
           eapply py_getitem_insert, Hget. }
  split; [reflexivity |].
  split; [apply valid_rotation_step, Hrot |].
  split. { simpl. intros ->. reflexivity. }
  split; [reflexivity |]. split; [reflexivity |].
  split. { intros j Hj. simpl. apply list_lookup_insert_ne. congruence. }
  split; [reflexivity |].
  intros Hall. simpl. apply Forall_insert; [exact Hall |].
  apply valid_rotation_step, Hrot.
Qed.

(** ** Bulk apply *)

Lemma set_settings_twice (s : Settings) (l : list ImageData) :
  map (set_settings s) (map (set_settings s) l) = map (set_settings s) l.
Proof. rewrite map_map. apply map_ext. intros []; reflexivity. Qed.

(** C7 (amended): when the active Document exists, [apply_to_all] gives
    every Document the record made of the widget values for style,
    brightness and contrast and of the active Document's rotation, replacing
    its previous settings and nothing else; when the widgets show the
    active Document's stored settings this record is the active Document's
    own; and a second call returns the same state. *)
Theorem apply_to_all_copies_and_is_idempotent
    (st : SessionState) (d : ImageData) :
  active_document st = Some d →
  ∃ st',
    apply_to_all st = Ok st'
    ∧ images st'
      = map (set_settings (widget_settings st (rotate (settings d))))
          (images st)
    ∧ Forall (λ d', settings d' = widget_settings st (rotate (settings d)))
        (images st')
    ∧ (widgets_show st d →
       Forall (λ d', settings d' = settings d) (images st'))
    ∧ apply_to_all st' = Ok st'.
Proof.
  intros Hact. apply active_document_Some in Hact as [k Hget].
  set (cs := widget_settings st (rotate (settings d))).
  exists (set_images (map (set_settings cs) (images st)) st).
  assert (Hall : Forall (λ d', settings d' = cs)
                   (map (set_settings cs) (images st))).
  { apply Forall_forall. intros x Hx. apply list_elem_of_In in Hx.
    apply in_map_iff in Hx as (x0 & <- & _). reflexivity. }
  split. { unfold apply_to_all. rewrite Hget. reflexivity. }
  split; [reflexivity |]. split; [exact Hall |]. split.
  - intros (Hs & Hb & Hc). simpl.
    assert (E : cs = settings d).
    { unfold cs, widget_settings. rewrite Hs, Hb, Hc.
      destruct (settings d); reflexivity. }
    rewrite <- E. exact Hall.
  - unfold apply_to_all. simpl.
    rewrite (py_getitem_map (set_settings cs) _ _ _ _ Hget). simpl.
    fold (widget_settings st (rotate (settings d))). fold cs.
    unfold set_images. simpl. rewrite set_settings_twice. reflexivity.
Qed.

(** ** The lookup table of the reorder block *)

Lemma py_get_map {A B} (f : A → B) (l : list A) (i : Z) :
  py_get (map f l) i = f <$> py_get l i.
Proof.
  unfold py_get. destruct (py_getitem l i) as [[k x]|e] eqn:E.
  - rewrite (py_getitem_map f _ _ _ _ E). reflexivity.
  - destruct (py_getitem (map f l) i) as [[k y]|e'] eqn:E'; [| reflexivity].
    exfalso. apply py_getitem_Ok in E' as [Hi Hk].
    rewrite list_lookup_fmap in Hk.
    destruct (l !! k) as [x|] eqn:Hx; [| discriminate].
    assert (py_getitem l i = Ok (k, x)) as E''.
    { apply py_getitem_Ok. split; [| exact Hx].
      unfold py_index in *. rewrite length_map in Hi. exact Hi. }
    congruence.
Qed.

Lemma py_get_elem_of {A} (l : list A) (i : Z) (x : A) :
  py_get l i = Some x → x ∈ l.
Proof.
  unfold py_get. destruct (py_getitem l i) as [[k y]|e] eqn:E; [| discriminate].
  intros [= <-]. apply py_getitem_Ok in E as [_ Hk].
  eapply list_elem_of_lookup_2, Hk.
Qed.

Lemma table_lookup_acc (imgs : list ImageData) (m : gmap string ImageData)
    (k : string) :
  k ∉ map file_id imgs →
  foldl (λ m img, <[file_id img := img]> m) m imgs !! k = m !! k.
Proof.
  revert m. induction imgs as [|x imgs IH]; intros m Hk; [reflexivity |].
  simpl in *. rewrite IH.
  - apply lookup_insert_ne. intros E. apply Hk. rewrite E. left.
  - intros Hin. apply Hk. right. exact Hin.
Qed.

Lemma table_lookup_inv (imgs : list ImageData) (m : gmap string ImageData)
    (k : string) (d : ImageData) :
  foldl (λ m img, <[file_id img := img]> m) m imgs !! k = Some d →
  (d ∈ imgs ∧ file_id d = k) ∨ m !! k = Some d.
Proof.
  revert m. induction imgs as [|x imgs IH]; intros m H; [right; exact H |].
  simpl in H. apply IH in H as [[Hin Hid] | H].
  - left. split; [right; exact Hin | exact Hid].
  - destruct (decide (file_id x = k)) as [E|E].
    + subst k. rewrite lookup_insert_eq in H. injection H as <-.
      left. split; [left | reflexivity].
    + rewrite lookup_insert_ne in H by exact E. right. exact H.
Qed.

Lemma table_lookup_known (imgs : list ImageData) (m : gmap string ImageData)
    (k : string) :
  k ∈ map file_id imgs →
  is_Some (foldl (λ m img, <[file_id img := img]> m) m imgs !! k).
Proof.
  revert m. induction imgs as [|x imgs IH]; intros m Hk; simpl in *.
  - inversion Hk.
  - destruct (decide (k ∈ map file_id imgs)) as [Hin|Hnot].
    + apply IH, Hin.
    + rewrite table_lookup_acc by exact Hnot.
      apply elem_of_cons in Hk as [-> | Hin]; [| contradiction].
      rewrite lookup_insert_eq. eauto.
Qed.

Lemma image_data_map_inv (imgs : list ImageData) (k : string) (d : ImageData) :
  image_data_map imgs !! k = Some d → d ∈ imgs ∧ file_id d = k.
Proof.
  intros H. apply table_lookup_inv in H as [H | H]; [exact H |].
  rewrite lookup_empty in H. discriminate.
Qed.

Lemma image_data_map_foreign (imgs : list ImageData) (k : string) :
  k ∉ map file_id imgs → image_data_map imgs !! k = None.
Proof.
  intros H. unfold image_data_map. rewrite table_lookup_acc by exact H.
  apply lookup_empty.
Qed.

Lemma image_data_map_unique (imgs : list ImageData) (d : ImageData) :
  NoDup (map file_id imgs) → d ∈ imgs →
  image_data_map imgs !! file_id d = Some d.
Proof.
  unfold image_data_map. generalize (∅ : gmap string ImageData).
  induction imgs as [|x imgs IH]; intros m Hnd Hd; [inversion Hd |].
  simpl in *. apply NoDup_cons in Hnd as [Hx Hnd].
  apply elem_of_cons in Hd as [-> | Hd].
  - rewrite table_lookup_acc by exact Hx. apply lookup_insert_eq.
  - apply IH; assumption.
Qed.

Lemma unique_id_determines (imgs : list ImageData) (d1 d2 : ImageData) :
  NoDup (map file_id imgs) → d1 ∈ imgs → d2 ∈ imgs →
  file_id d1 = file_id d2 → d1 = d2.
Proof.
  intros Hnd H1 H2 E.
  pose proof (image_data_map_unique imgs d1 Hnd H1) as L1.
  pose proof (image_data_map_unique imgs d2 Hnd H2) as L2.
  rewrite E in L1. congruence.
Qed.

(** The comprehension loop over [new_file_id_order]. *)
Lemma lookups_nil (m : gmap string ImageData) :
  mapM (dict_getitem m) [] = Ok [].
Proof. reflexivity. Qed.

Lemma lookups_cons (m : gmap string ImageData) (k : string) (ks : list string) :
  mapM (dict_getitem m) (k :: ks) =
  match m !! k with
  | Some d =>
      match mapM (dict_getitem m) ks with
      | Ok docs => Ok (d :: docs)
      | Raise e => Raise e
      end
  | None => Raise (KeyError k)
  end.
Proof.
  change (mapM (dict_getitem m) (k :: ks))
    with (result_bind
            (λ y, result_bind (λ l, Ok (y :: l)) (mapM (dict_getitem m) ks))
            (dict_getitem m k)).
  unfold result_bind, dict_getitem. destruct (m !! k); reflexivity.
Qed.

Lemma lookups_Ok (m : gmap string ImageData) (docs : list ImageData) :
  Forall (λ d, m !! file_id d = Some d) docs →
  mapM (dict_getitem m) (map file_id docs) = Ok docs.
Proof.
  induction docs as [|d docs IH]; intros H; [reflexivity |].
  apply Forall_cons in H as [Hd Hdocs].
  change (map file_id (d :: docs)) with (file_id d :: map file_id docs).
  rewrite lookups_cons, Hd, (IH Hdocs). reflexivity.
Qed.

Lemma lookups_inv (m : gmap string ImageData) (ks : list string)
    (docs : list ImageData) :
  mapM (dict_getitem m) ks = Ok docs →
  Forall2 (λ k d, m !! k = Some d) ks docs.
Proof.
  revert docs. induction ks as [|k ks IH]; intros docs H.
  - rewrite lookups_nil in H. injection H as <-. constructor.
  - rewrite lookups_cons in H.
    destruct (m !! k) as [d|] eqn:Hk; [| discriminate].
    destruct (mapM (dict_getitem m) ks) as [l|e]; [| discriminate].
    injection H as <-. constructor; [exact Hk | apply IH; reflexivity].
Qed.

Lemma lookups_total (m : gmap string ImageData) (ks : list string) :
  Forall (λ k, is_Some (m !! k)) ks →
  ∃ docs, mapM (dict_getitem m) ks = Ok docs.
Proof.
  induction ks as [|k ks IH]; intros H; [eexists; reflexivity |].
  apply Forall_cons in H as [[d Hd] Hks].
  destruct (IH Hks) as [docs Hdocs]. exists (d :: docs).
  rewrite lookups_cons, Hd, Hdocs. reflexivity.
Qed.

Lemma lookups_raise (m : gmap string ImageData) (pre post : list string)
    (k : string) :
  Forall (λ k, is_Some (m !! k)) pre → m !! k = None →
  mapM (dict_getitem m) (pre ++ k :: post) = Raise (KeyError k).
Proof.
  induction pre as [|k0 pre IH]; intros Hpre Hk.
  - change ([] ++ k :: post) with (k :: post).
    rewrite lookups_cons, Hk. reflexivity.
  - apply Forall_cons in Hpre as [[d Hd] Hpre].
    change ((k0 :: pre) ++ k :: post) with (k0 :: (pre ++ k :: post)).
    rewrite lookups_cons, Hd, (IH Hpre Hk). reflexivity.
Qed.

(** ** Reordering *)

Lemma set_images_same (st : SessionState) : set_images (images st) st = st.
Proof. destruct st; reflexivity. Qed.

Lemma looked_up_documents (imgs : list ImageData) (ks : list string)
    (docs : list ImageData) :
  Forall2 (λ k d, image_data_map imgs !! k = Some d) ks docs →
  map file_id docs = ks ∧ Forall (λ d, d ∈ imgs) docs.
Proof.
  induction 1 as [|k d ks docs Hk _ [IHids IHin]]; [split; constructor |].
  apply image_data_map_inv in Hk as [Hin Hid]. split.
  - simpl. rewrite Hid, IHids. reflexivity.
  - constructor; assumption.
Qed.

(** What a successful run of the reorder block leaves behind. *)
Lemma reorder_pages_Ok (new_file_id_order : list string)
    (st st' : SessionState) :
  reorder_pages new_file_id_order st = Ok st' →
  map file_id (images st') = new_file_id_order
  ∧ Forall (λ d, d ∈ images st) (images st')
  ∧ st' = set_images (images st') st.
Proof.
  unfold reorder_pages. case_bool_decide as Hchg.
  - destruct (mapM _ new_file_id_order) as [docs|e] eqn:E; [| discriminate].
    intros [= <-]. apply lookups_inv, looked_up_documents in E as [Hids Hin].
    repeat split; assumption.
  - intros [= <-]. rewrite set_images_same.
    split; [| split; [| reflexivity]].
    + destruct (decide (map file_id (images st) = new_file_id_order));
        [assumption | contradiction].
    + apply Forall_forall. auto.
Qed.

Lemma same_ids_same_documents (imgs l1 l2 : list ImageData) :
  NoDup (map file_id imgs) →
  Forall (λ d, d ∈ imgs) l1 → Forall (λ d, d ∈ imgs) l2 →
  map file_id l1 = map file_id l2 → l1 = l2.
Proof.
  intros Hnd. revert l2.
  induction l1 as [|x l1 IH]; intros [|y l2] H1 H2 E;
    try discriminate; [reflexivity |].
  apply Forall_cons in H1 as [Hx H1]. apply Forall_cons in H2 as [Hy H2].
  simpl in E. injection E as Exy E.
  rewrite (unique_id_determines imgs x y Hnd Hx Hy Exy).
  f_equal. apply IH; assumption.
Qed.

(** C1: for a document set with unique ids and a permutation of those ids,
    the reorder block succeeds and only moves the Documents: the new
    sequence lists the ids in the requested order, it is a permutation of
    the old sequence of records (id, name, original image and settings
    stay together), every Document is found at the position of its id,
    and no other key of the session changes. *)
Theorem reorder_pages_moves_documents_only (new_file_id_order : list string)
    (st : SessionState) :
  NoDup (map file_id (images st)) →
  new_file_id_order ≡ₚ map file_id (images st) →
  ∃ st',
    reorder_pages new_file_id_order st = Ok st'
    ∧ map file_id (images st') = new_file_id_order
    ∧ images st' ≡ₚ images st
    ∧ (∀ d, d ∈ images st →
         ∃ i, images st' !! i = Some d
              ∧ new_file_id_order !! i = Some (file_id d))
    ∧ st' = set_images (images st') st.
Proof.
  intros Hnd Hperm.
  apply Permutation_map_inv in Hperm as (docs & Hnew & Hdocs).
  assert (Hrun : reorder_pages new_file_id_order st
                 = Ok (set_images docs st)).
  { unfold reorder_pages. case_bool_decide as Hchg.
    - rewrite Hnew, lookups_Ok; [reflexivity |].
      apply Forall_forall. intros d Hd.
      apply image_data_map_unique; [exact Hnd |].
      rewrite Hdocs. exact Hd.
    - assert (E : map file_id (images st) = map file_id docs).
      { destruct (decide (map file_id (images st) = new_file_id_order));
          [congruence | contradiction]. }
      assert (E' : images st = docs).
      { apply (same_ids_same_documents (images st)); [exact Hnd | | | exact E].
        - apply Forall_forall. auto.
        - apply Forall_forall. intros d Hd. rewrite Hdocs. exact Hd. }
      rewrite <- E', set_images_same. reflexivity. }
  exists (set_images docs st). simpl.
  split; [exact Hrun |]. split; [symmetry; exact Hnew |].
  split; [symmetry; exact Hdocs |]. split; [| reflexivity].
  intros d Hd. rewrite Hdocs in Hd.
  apply list_elem_of_lookup in Hd as [i Hi]. exists i.
  split; [exact Hi |]. rewrite Hnew, list_lookup_fmap, Hi. reflexivity.
Qed.

Lemma reorder_pages_never_InvalidReorder (new_file_id_order : list string)
    (st : SessionState) :
  reorder_pages new_file_id_order st ≠ Raise InvalidReorder.
Proof.
  unfold reorder_pages. case_bool_decide; [| discriminate].
  destruct (mapM _ new_file_id_order) as [docs|e] eqn:E; [discriminate |].
  simpl. intros [= ->]. revert E. clear.
  induction new_file_id_order as [|k ks IH]; [discriminate |].
  rewrite lookups_cons. destruct (_ !! k); [| discriminate].
  destruct (mapM _ ks) as [docs|e]; [discriminate |].
  intros [= ->]. apply IH. reflexivity.
Qed.

(** C4 (amended): the reorder block does not validate the id sequence.
    A sequence equal to the current order changes nothing.  A different
    sequence made of current ids only is accepted, permutation or not: the
    new document sequence holds, for each id of it in turn, a Document of
    the set with that id, so a left-out id drops its Document and a repeated
    id repeats it.  A sequence with a foreign id raises [KeyError] for the
    first such id and assigns nothing.  [InvalidReorder] is never raised. *)
Theorem reorder_pages_does_not_validate (new_file_id_order : list string)
    (st : SessionState) :
  (new_file_id_order = map file_id (images st) →
   reorder_pages new_file_id_order st = Ok st)
  ∧ (new_file_id_order ≠ map file_id (images st) →
     Forall (λ k, k ∈ map file_id (images st)) new_file_id_order →
     ∃ docs,
       reorder_pages new_file_id_order st = Ok (set_images docs st)
       ∧ map file_id docs = new_file_id_order
       ∧ Forall (λ d, d ∈ images st) docs)
  ∧ (∀ pre k post,
       new_file_id_order = pre ++ k :: post →
       Forall (λ k', k' ∈ map file_id (images st)) pre →
       k ∉ map file_id (images st) →
       reorder_pages new_file_id_order st = Raise (KeyError k))
  ∧ reorder_pages new_file_id_order st ≠ Raise InvalidReorder.
Proof.
  split; [| split; [| split]].
  - intros ->. unfold reorder_pages.
    case_bool_decide; [contradiction | reflexivity].
  - intros Hne Hknown.
    destruct (lookups_total (image_data_map (images st)) new_file_id_order)
      as [docs Hdocs].
    { eapply Forall_impl; [exact Hknown |]. intros k Hk.
      apply table_lookup_known, Hk. }
    exists docs.
    assert (Hrun : reorder_pages new_file_id_order st
                   = Ok (set_images docs st)).
    { unfold reorder_pages. case_bool_decide as Hchg; [| congruence].
      rewrite Hdocs. reflexivity. }
    split; [exact Hrun |].
    apply reorder_pages_Ok in Hrun as (Hids & Hin & _). auto.
  - intros pre k post -> Hpre Hk. unfold reorder_pages.
    case_bool_decide as Hchg.
    + rewrite lookups_raise; [reflexivity | | apply image_data_map_foreign, Hk].
      eapply Forall_impl; [exact Hpre |]. intros k' Hk'.
      apply table_lookup_known, Hk'.
    + exfalso. apply Hk.
      destruct (decide (map file_id (images st) = pre ++ k :: post)) as [E|E];
        [| contradiction].
      rewrite E. apply elem_of_app. right. left.
  - apply reorder_pages_never_InvalidReorder.
Qed.

(** ** Loading *)

Section LoadFacts.

Variable imdecode : list Byte.byte → result (option ndarray).

(** A rerun with the uploads the stored ids came from: only the range check
    of the index runs. *)
Lemma initialize_state_same_ids (uploads : list UploadedFile)
    (st : SessionState) :
  file_ids st = Some (map upload_file_id uploads) →
  initialize_state imdecode uploads st =
    (if Z.of_nat (length (images st)) <=? current_index st
     then set_current_index 0 st else st, None).
Proof.
  intros H. unfold initialize_state, file_ids_changed. rewrite H.
  rewrite bool_decide_eq_true_2 by reflexivity. simpl.
  destruct (Z.of_nat (length (images st)) <=? current_index st); reflexivity.
Qed.

(** C3 (amended): the reorder block does not touch [current_index].  After
    a reorder the index is the number it was, so the active Document is the
    one whose id the new order has at that position; with unique ids and a
    permutation it is the Document that was active before exactly when the
    new order keeps that Document's id at the active position.  The rerun
    that follows resets the index to 0 only when it is no longer below the
    length of the sequence. *)
Theorem reorder_pages_keeps_index_not_document
    (uploads : list UploadedFile) (new_file_id_order : list string)
    (st st' : SessionState) :
  reorder_pages new_file_id_order st = Ok st' →
  file_ids st = Some (map upload_file_id uploads) →
  current_index st' = current_index st
  ∧ file_id <$> active_document st'
    = py_get new_file_id_order (current_index st)
  ∧ (NoDup (map file_id (images st)) →
     is_Some (active_document st) →
     (active_document st' = active_document st ↔
      py_get new_file_id_order (current_index st)
      = file_id <$> active_document st))
  ∧ initialize_state imdecode uploads st' =
      (if Z.of_nat (length (images st')) <=? current_index st
       then set_current_index 0 st' else st', None).
Proof.
  intros Hrun Hids. apply reorder_pages_Ok in Hrun as (Hnew & Hin & Hst').
  assert (Hidx : current_index st' = current_index st)
    by (rewrite Hst'; reflexivity).
  assert (Hact : file_id <$> active_document st'
                 = py_get new_file_id_order (current_index st)).
  { unfold active_document. rewrite <- py_get_map, Hnew, Hidx. reflexivity. }
  split; [exact Hidx |]. split; [exact Hact |]. split.
  - intros Hnd [d Hd]. rewrite <- Hact, Hd. split; [intros ->; reflexivity |].
    destruct (active_document st') as [d'|] eqn:Hd'; [| discriminate].
    simpl. intros [= E]. f_equal.
    apply (unique_id_determines (images st)); [exact Hnd | | | exact E].
    + rewrite Forall_forall in Hin. apply Hin.
      eapply py_get_elem_of, Hd'.
    + eapply py_get_elem_of, Hd.
  - rewrite <- Hidx. apply initialize_state_same_ids.
    rewrite Hst'. exact Hids.
Qed.

Lemma load_loop_Ok (uploads : list UploadedFile) (acc : list ImageData) :
  Forall (decodes imdecode) uploads →
  ∃ docs, load_loop imdecode uploads acc = (acc ++ docs, None)
          ∧ Forall2 (loaded_from imdecode) uploads docs.
Proof.
  revert acc. induction uploads as [|up rest IH]; intros acc H.
  - exists []. rewrite app_nil_r. split; [reflexivity | constructor].
  - apply Forall_cons in H as [[bgr Hup] Hrest].
    destruct (IH (acc ++ [new_image_data up bgr]) Hrest) as (docs & Hrun & Hdocs).
    exists (new_image_data up bgr :: docs). simpl. rewrite Hup, Hrun.
    rewrite <- app_assoc. split; [reflexivity |].
    constructor; [exists bgr; auto | exact Hdocs].
Qed.

Lemma load_loop_Raise (pre post : list UploadedFile) (up : UploadedFile)
    (e : exn) (acc : list ImageData) :
  Forall (decodes imdecode) pre →
  imdecode (upload_read up) = Raise e →
  ∃ docs, load_loop imdecode (pre ++ up :: post) acc = (acc ++ docs, Some e)
          ∧ Forall2 (loaded_from imdecode) pre docs.
Proof.
  revert acc. induction pre as [|u pre IH]; intros acc H Hup.
  - exists []. simpl. rewrite Hup, app_nil_r. split; [reflexivity | constructor].
  - apply Forall_cons in H as [[bgr Hu] Hpre].
    destruct (IH (acc ++ [new_image_data u bgr]) Hpre Hup) as (docs & Hrun & Hdocs).
    exists (new_image_data u bgr :: docs). simpl. rewrite Hu, Hrun.
    rewrite <- app_assoc. split; [reflexivity |].
    constructor; [exists bgr; auto | exact Hdocs].
Qed.

Lemma file_ids_changed_true (st : SessionState) (ids : list string) :
  file_ids st ≠ Some ids → file_ids_changed st ids = true.
Proof.
  unfold file_ids_changed. destruct (file_ids st) as [ids'|]; [| reflexivity].
  intros H. rewrite bool_decide_eq_false_2; [reflexivity | congruence].
Qed.

Lemma loaded_from_defaults (uploads : list UploadedFile) (docs : list ImageData) :
  Forall2 (loaded_from imdecode) uploads docs →
  map file_id docs = map upload_file_id uploads
  ∧ map name docs = map upload_name uploads
  ∧ Forall (λ d, settings d = default_settings) docs.
Proof.
  induction 1 as [|up d ups docs (bgr & _ & ->) _ (IH1 & IH2 & IH3)].
  - repeat split; constructor.
  - simpl. rewrite IH1, IH2. repeat split. constructor; [reflexivity | exact IH3].
Qed.

(** The state a reload that met no exception leaves. *)
Lemma initialize_state_reload (uploads : list UploadedFile) (st : SessionState) :
  file_ids st ≠ Some (map upload_file_id uploads) →
  Forall (decodes imdecode) uploads →
  ∃ docs,
    Forall2 (loaded_from imdecode) uploads docs
    ∧ initialize_state imdecode uploads st =
        ({| file_ids := Some (map upload_file_id uploads);
            images := docs;
            current_index := 0;
            current_style := current_style st;
            current_brightness := current_brightness st;
            current_contrast := current_contrast st |}, None).
Proof.
  intros Hchg Hdec.
  destruct (load_loop_Ok uploads [] Hdec) as (docs & Hrun & Hdocs).
  exists docs. split; [exact Hdocs |].
  unfold initialize_state. rewrite (file_ids_changed_true _ _ Hchg), Hrun.
  simpl. destruct (Z.of_nat (length docs) <=? 0); reflexivity.
Qed.

(** C5 (amended): [initialize_state] compares the incoming ids with the
    stored ones as lists.  When the two lists are equal (same ids in the
    same order) the documents, their settings, the stored ids and the
    widgets stay as they are, and the active index stays too unless it is
    not below the number of documents, in which case it becomes 0.  When
    they differ, and also when they hold the same ids in another order, and
    every source is handed back by the decoder, the document list becomes
    one fresh Document per source, in upload order, each with the default
    settings (Original, 0, 1.0, 0), and the active index becomes 0. *)
Theorem initialize_state_compares_id_lists (uploads : list UploadedFile)
    (st : SessionState) :
  (file_ids st = Some (map upload_file_id uploads) →
   ∃ st',
     initialize_state imdecode uploads st = (st', None)
     ∧ images st' = images st
     ∧ file_ids st' = file_ids st
     ∧ (current_style st', current_brightness st', current_contrast st')
       = (current_style st, current_brightness st, current_contrast st)
     ∧ (current_index st < Z.of_nat (length (images st)) → st' = st)
     ∧ (Z.of_nat (length (images st)) <= current_index st →
        current_index st' = 0))
  ∧ (file_ids st ≠ Some (map upload_file_id uploads) →
     Forall (decodes imdecode) uploads →
     ∃ st',
       initialize_state imdecode uploads st = (st', None)
       ∧ file_ids st' = Some (map upload_file_id uploads)
       ∧ Forall2 (loaded_from imdecode) uploads (images st')
       ∧ map file_id (images st') = map upload_file_id uploads
       ∧ Forall (λ d, settings d = default_settings) (images st')
       ∧ current_index st' = 0).
Proof.
  split.
  - intros Hsame. rewrite (initialize_state_same_ids uploads st Hsame).
    destruct (Z.of_nat (length (images st)) <=? current_index st) eqn:E.
    + exists (set_current_index 0 st). repeat split; simpl; auto. lia.
    + exists st. repeat split; auto. lia.
  - intros Hchg Hdec.
    destruct (initialize_state_reload uploads st Hchg Hdec) as (docs & Hdocs & Hrun).
    destruct (loaded_from_defaults uploads docs Hdocs) as (Hids & _ & Hdef).
    eexists. split; [exact Hrun |]. simpl. repeat split; assumption.
Qed.

(** C6 (amended): for a batch whose id list differs from the stored one,
    a source that [cv2.imdecode] cannot read does not fail the load.  While
    the decoder returns for every source, every source gets its Document
    and no error is raised; a source for which it returned [None] is a
    Document without image.  If the decoder raises on a source, that error
    of the decoder ends the call and the session is not restored: it holds
    the new ids, the Documents of the sources before the offending one and
    the active index 0. *)
Theorem initialize_state_decode_failures (uploads : list UploadedFile)
    (st : SessionState) :
  file_ids st ≠ Some (map upload_file_id uploads) →
  (Forall (decodes imdecode) uploads →
   ∃ st',
     initialize_state imdecode uploads st = (st', None)
     ∧ Forall2 (loaded_from imdecode) uploads (images st')
     ∧ ∀ up, up ∈ uploads → imdecode (upload_read up) = Ok None →
         new_image_data up None ∈ images st')
  ∧ (∀ pre up post e,
       uploads = pre ++ up :: post →
       Forall (decodes imdecode) pre →
       imdecode (upload_read up) = Raise e →
       ∃ st',
         initialize_state imdecode uploads st = (st', Some e)
         ∧ file_ids st' = Some (map upload_file_id uploads)
         ∧ Forall2 (loaded_from imdecode) pre (images st')
         ∧ current_index st' = 0).
Proof.
  intros Hchg. split.
  - intros Hdec.
    destruct (initialize_state_reload uploads st Hchg Hdec) as (docs & Hdocs & Hrun).
    eexists. split; [exact Hrun |]. simpl. split; [exact Hdocs |].
    intros up Hup Hnone.
    apply list_elem_of_lookup in Hup as [i Hi].
    destruct (Forall2_lookup_l _ _ _ _ _ Hdocs Hi) as (d & Hd & bgr & Hbgr & ->).
    rewrite Hnone in Hbgr. injection Hbgr as <-.
    eapply list_elem_of_lookup_2, Hd.
  - intros pre up post e -> Hpre Hup.
    destruct (load_loop_Raise pre post up e [] Hpre Hup) as (docs & Hrun & Hdocs).
    eexists. split.
    + unfold initialize_state. rewrite (file_ids_changed_true _ _ Hchg), Hrun.
      reflexivity.
    + simpl. repeat split. exact Hdocs.
Qed.

End LoadFacts.

(** ** Settings are taken as they come *)

Lemma rotate_step_other (bgr : ndarray) (s : Settings) :
  rotate s ≠ 90 → rotate s ≠ 180 → rotate s ≠ 270 → rotate_step bgr s = bgr.
Proof.
  intros H1 H2 H3. unfold rotate_step.
  destruct (Z.eqb_spec (rotate s) 90); [contradiction |].
  destruct (Z.eqb_spec (rotate s) 180); [contradiction |].
  destruct (Z.eqb_spec (rotate s) 270); [contradiction | reflexivity].
Qed.

(** The render written out: the adjusted raster is the rotated one with
    every channel sent through [scale_abs_u8] at the contrast and
    brightness of the settings record, and the result is the styled
    adjusted raster. *)
Lemma process_image_applies_settings
    (luma : pixel → Z) (clahe : Q → nat → list (list Z) → list (list Z))
    (bgr : ndarray) (s : Settings) :
  is_bgr bgr = true →
  valid_style (style s) →
  ∃ rotated styled,
    rotate_step bgr s = Color rotated
    ∧ adjust_brightness_contrast (Color rotated) (brightness s) (contrast s)
      = Color (map_rows (map_channels
                           (scale_abs_u8 (contrast s) (brightness s)))
                 rotated)
    ∧ style_step luma clahe
        (Color (map_rows (map_channels
                            (scale_abs_u8 (contrast s) (brightness s)))
                  rotated)) s
      = Ok (Some styled)
    ∧ process_image luma clahe bgr s
      = Ok (convert_RGB (Image_fromarray styled)).
Proof.
  destruct bgr as [g|c]; simpl; [discriminate |]. intros Hok Hstyle.
  pose proof (adjusted_rows_ok c s Hok) as Hne.
  pose proof (process_image_color luma clahe c s Hok) as Hrun.
  exists (rotated_rows (rotate s) c). fold (adjusted_rows c s).
  assert (Hstep : ∃ styled,
    style_step luma clahe (Color (adjusted_rows c s)) s = Ok (Some styled)
    ∧ process_image luma clahe (Color c) s
      = Ok (convert_RGB (Image_fromarray styled))).
  { unfold style_step, to_gray. destruct Hstyle as [E|E]; rewrite E in *;
      simpl in *; rewrite Hne; simpl; eexists; (split; [reflexivity |]);
      rewrite Hrun; reflexivity. }
  destruct Hstep as (styled & Hst & Hout).
  exists styled. split; [apply rotate_step_color |].
  split; [reflexivity |]. split; [exact Hst | exact Hout].
Qed.

(** C2 (amended): neither the pipeline nor the setter checks the ranges.
    For a decoded colour raster and a style of the enumeration,
    [process_image] returns a three-channel image whatever the rotation,
    brightness and contrast are; a rotation other than 90, 180 and 270 is
    rendered as no rotation; [InvalidSettings] is not raised.  The setter
    writes the widget values for style, brightness and contrast into the
    active Document as they are and keeps its rotation.  Brightness and
    contrast are applied as given, not brought into their declared ranges:
    the result is the style applied to the rotated raster with every
    channel [v] sent through [cv2.convertScaleAbs] at exactly the stored
    contrast and brightness, and for a contrast in [0, 16] and a brightness
    in [-4096, 4096] that channel is |v * contrast + brightness| to within
    1/2 + 1/500 when this is at most 255, and 255 when it is at least
    255. *)
Theorem settings_are_not_validated
    (luma : pixel → Z) (clahe : Q → nat → list (list Z) → list (list Z))
    (bgr : ndarray) (s : Settings) (st : SessionState) (d : ImageData) :
  is_bgr bgr = true →
  valid_style (style s) →
  active_document st = Some d →
  (∃ out, process_image luma clahe bgr s = Ok out ∧ bands out = 3%nat)
  ∧ (rotate s ≠ 90 → rotate s ≠ 180 → rotate s ≠ 270 →
     process_image luma clahe bgr s
     = process_image luma clahe bgr (set_rotate 0 s))
  ∧ process_image luma clahe bgr s ≠ Raise InvalidSettings
  ∧ (∃ st' k,
      update_current_image_settings st = Ok st'
      ∧ py_index (images st) (current_index st) = Some k
      ∧ images st'
        = <[k := set_settings (widget_settings st (rotate (settings d))) d]>
            (images st)
      ∧ settings <$> active_document st'
        = Some (widget_settings st (rotate (settings d))))
  ∧ (∃ rotated styled,
       rotate_step bgr s = Color rotated
       ∧ adjust_brightness_contrast (Color rotated) (brightness s) (contrast s)
         = Color (map_rows (map_channels
                              (scale_abs_u8 (contrast s) (brightness s)))
                    rotated)
       ∧ style_step luma clahe
           (Color (map_rows (map_channels
                               (scale_abs_u8 (contrast s) (brightness s)))
                     rotated)) s
         = Ok (Some styled)
       ∧ process_image luma clahe bgr s
         = Ok (convert_RGB (Image_fromarray styled)))
  ∧ ∀ v,
      is_u8 v →
      (0 <= contrast s)%Q → (contrast s <= 16)%Q →
      -4096 <= brightness s <= 4096 →
      ((Qabs (scaled (contrast s) (brightness s) v) <= 255)%Q →
       (Qabs (scaled (contrast s) (brightness s) v) - (251 # 500)
          <= inject_Z (scale_abs_u8 (contrast s) (brightness s) v))%Q
       ∧ (inject_Z (scale_abs_u8 (contrast s) (brightness s) v)
          <= Qabs (scaled (contrast s) (brightness s) v) + (251 # 500))%Q)
      ∧ ((255 <= Qabs (scaled (contrast s) (brightness s) v))%Q →
         scale_abs_u8 (contrast s) (brightness s) v = 255).
Proof.
  intros Hbgr Hstyle Hact. split.
  { destruct bgr as [g|c]; simpl in Hbgr; [discriminate |].
    rewrite (process_image_color luma clahe c s Hbgr).
    destruct Hstyle as [E|E]; rewrite E; simpl; eexists; split; reflexivity. }
  split.
  { intros H1 H2 H3. unfold process_image.
    rewrite (rotate_step_other bgr s H1 H2 H3).
    rewrite (rotate_step_other bgr (set_rotate 0 s)) by (simpl; lia).
    reflexivity. }
  split; [apply process_image_never_InvalidSettings |].
  apply active_document_Some in Hact as [k Hget].
  pose proof Hget as Hget'. apply py_getitem_Ok in Hget' as [Hidx _].
  set (d' := set_settings (widget_settings st (rotate (settings d))) d).
  assert (Hact' : active_document (set_images (<[k := d']> (images st)) st)
                  = Some d').
  { apply active_document_Some. exists k. simpl.
    eapply py_getitem_insert, Hget. }
  split.
  { exists (set_images (<[k := d']> (images st)) st), k. split.
    { unfold update_current_image_settings. rewrite Hget. reflexivity. }
    split; [exact Hidx |]. split; [reflexivity |].
    rewrite Hact'. reflexivity. }
  split; [apply process_image_applies_settings; assumption |].
  intros v Hv Hc0 Hc1 Hb. apply scale_abs_u8_near; assumption.
Qed.

(** * The claims on concrete inputs *)

(** C1 on [two_docs], reordered to b, a. *)
Lemma reorder_pages_moves_documents_only_witness :
  NoDup (map file_id (images two_docs))
  ∧ ["id-b"; "id-a"] ≡ₚ map file_id (images two_docs)
  ∧ ∃ st',
      reorder_pages ["id-b"; "id-a"] two_docs = Ok st'
      ∧ map file_id (images st') = ["id-b"; "id-a"]
      ∧ images st' ≡ₚ images two_docs
      ∧ (∀ d, d ∈ images two_docs →
           ∃ i, images st' !! i = Some d
                ∧ ["id-b"; "id-a"] !! i = Some (file_id d))
      ∧ st' = set_images (images st') two_docs.
Proof.
  assert (Hnd : NoDup (map file_id (images two_docs))).
  { simpl. apply NoDup_cons. split; [| apply NoDup_singleton].
    intros H. apply list_elem_of_singleton in H. discriminate. }
  assert (Hperm : ["id-b"; "id-a"] ≡ₚ map file_id (images two_docs)).
  { simpl. apply perm_swap. }
  split; [exact Hnd |]. split; [exact Hperm |].
  exact (reorder_pages_moves_documents_only ["id-b"; "id-a"] two_docs Hnd Hperm).
Defined.

(** C2: a brightness of 500 and a rotation of 45 are rendered, and the
    setter stores a brightness of 500. *)
Lemma invalid_settings_accepted_counterexample :
  process_image example_luma example_clahe example_raster
    settings_brightness_500 = Ok (PIL_RGB [[(255, 255, 255)]])
  ∧ ¬ render_rejects_invalid example_luma example_clahe example_raster
        settings_brightness_500
  ∧ update_current_image_settings two_docs_brightness_500
    = Ok (set_images
            [set_settings
               {| style := "Original"; brightness := 500;
                  contrast := 1%Q; rotate := 0 |} doc_a;
             doc_b]
            two_docs_brightness_500)
  ∧ ¬ setter_rejects_invalid two_docs_brightness_500.
Proof.
  split; [vm_compute; reflexivity |]. split.
  { intros H.
    assert (Hbad : ¬ valid_settings settings_brightness_500).
    { unfold valid_settings. simpl. lia. }
    specialize (H Hbad). vm_compute in H. discriminate. }
  split; [vm_compute; reflexivity |].
  intros H.
  assert (Hbad : ¬ (-100 <= current_brightness two_docs_brightness_500 <= 100
                    ∧ (0 <= current_contrast two_docs_brightness_500)%Q
                    ∧ (current_contrast two_docs_brightness_500 <= 3)%Q)).
  { simpl. lia. }
  specialize (H Hbad). vm_compute in H. discriminate.
Qed.

Lemma settings_are_not_validated_witness :
  is_bgr example_raster = true
  ∧ valid_style (style settings_brightness_500)
  ∧ active_document two_docs_brightness_500 = Some doc_a
  ∧ (∃ out, process_image example_luma example_clahe example_raster
              settings_brightness_500 = Ok out ∧ bands out = 3%nat)
  ∧ (∃ st' k,
      update_current_image_settings two_docs_brightness_500 = Ok st'
      ∧ py_index (images two_docs_brightness_500)
          (current_index two_docs_brightness_500) = Some k
      ∧ images st'
        = <[k := set_settings
                   (widget_settings two_docs_brightness_500
                      (rotate (settings doc_a))) doc_a]>
            (images two_docs_brightness_500)
      ∧ settings <$> active_document st'
        = Some (widget_settings two_docs_brightness_500
                  (rotate (settings doc_a))))
  ∧ scale_abs_u8 (contrast settings_brightness_500)
      (brightness settings_brightness_500) 10 = 255.
Proof.
  assert (H1 : is_bgr example_raster = true) by reflexivity.
  assert (H2 : valid_style (style settings_brightness_500)) by (left; reflexivity).
  assert (H3 : active_document two_docs_brightness_500 = Some doc_a)
    by reflexivity.
  split; [exact H1 |]. split; [exact H2 |]. split; [exact H3 |].
  destruct (settings_are_not_validated example_luma example_clahe
              example_raster settings_brightness_500
              two_docs_brightness_500 doc_a H1 H2 H3)
    as (Hrender & _ & _ & Hset & _ & Hval).
  split; [exact Hrender |]. split; [exact Hset |].
  apply (Hval 10).
  - unfold is_u8. lia.
  - simpl. lra.
  - simpl. lra.
  - simpl. lia.
  - vm_compute. discriminate.
Defined.

(** C3: in [two_docs] the first document is active; after the reorder to
    b, a the index is still 0 and the active document is b. *)
Lemma active_index_not_recomputed_counterexample :
  reorder_pages ["id-b"; "id-a"] two_docs
  = Ok (set_images [doc_b; doc_a] two_docs)
  ∧ active_document two_docs = Some doc_a
  ∧ active_document (set_images [doc_b; doc_a] two_docs) = Some doc_b
  ∧ ¬ active_follows_document ["id-b"; "id-a"] two_docs.
Proof.
  assert (Hrun : reorder_pages ["id-b"; "id-a"] two_docs
                 = Ok (set_images [doc_b; doc_a] two_docs))
    by (vm_compute; reflexivity).
  split; [exact Hrun |]. split; [reflexivity |]. split; [reflexivity |].
  intros H. specialize (H _ Hrun). vm_compute in H. discriminate.
Qed.

Lemma reorder_pages_keeps_index_not_document_witness :
  reorder_pages ["id-b"; "id-a"] two_docs
  = Ok (set_images [doc_b; doc_a] two_docs)
  ∧ file_ids two_docs = Some (map upload_file_id [upload_a; upload_b])
  ∧ current_index (set_images [doc_b; doc_a] two_docs)
    = current_index two_docs
  ∧ file_id <$> active_document (set_images [doc_b; doc_a] two_docs)
    = py_get ["id-b"; "id-a"] (current_index two_docs)
  ∧ initialize_state example_imdecode [upload_a; upload_b]
      (set_images [doc_b; doc_a] two_docs)
    = (set_images [doc_b; doc_a] two_docs, None).
Proof.
  assert (Hrun : reorder_pages ["id-b"; "id-a"] two_docs
                 = Ok (set_images [doc_b; doc_a] two_docs))
    by (vm_compute; reflexivity).
  assert (Hids : file_ids two_docs
                 = Some (map upload_file_id [upload_a; upload_b]))
    by reflexivity.
  split; [exact Hrun |]. split; [exact Hids |].
  destruct (reorder_pages_keeps_index_not_document example_imdecode
              [upload_a; upload_b] ["id-b"; "id-a"] two_docs _ Hrun Hids)
    as (Hidx & Hact & _ & Hrerun).
  split; [exact Hidx |]. split; [exact Hact |]. exact Hrerun.
Defined.

(** C4: the sequence b, b is not a permutation of a, b; the block accepts
    it, drops document a and lists document b twice. *)
Lemma non_permutation_accepted_counterexample :
  reorder_pages ["id-b"; "id-b"] two_docs
  = Ok (set_images [doc_b; doc_b] two_docs)
  ∧ ¬ reorder_rejects_non_permutation ["id-b"; "id-b"] two_docs.
Proof.
  split; [vm_compute; reflexivity |]. intros H.
  assert (Hnp : ¬ ["id-b"; "id-b"] ≡ₚ map file_id (images two_docs)).
  { simpl. intros Hp.
    assert (Hin : "id-a" ∈ ["id-b"; "id-b"]) by (rewrite Hp; left).
    apply elem_of_cons in Hin as [Hin | Hin]; [discriminate |].
    apply list_elem_of_singleton in Hin. discriminate. }
  specialize (H Hnp). vm_compute in H. discriminate.
Qed.

Lemma reorder_pages_does_not_validate_witness :
  ["id-b"; "id-b"] ≠ map file_id (images two_docs)
  ∧ Forall (λ k, k ∈ map file_id (images two_docs)) ["id-b"; "id-b"]
  ∧ (∃ docs,
       reorder_pages ["id-b"; "id-b"] two_docs = Ok (set_images docs two_docs)
       ∧ map file_id docs = ["id-b"; "id-b"]
       ∧ Forall (λ d, d ∈ images two_docs) docs)
  ∧ reorder_pages ["id-b"; "id-b"] two_docs ≠ Raise InvalidReorder.
Proof.
  assert (Hne : ["id-b"; "id-b"] ≠ map file_id (images two_docs))
    by discriminate.
  assert (Hknown : Forall (λ k, k ∈ map file_id (images two_docs))
                     ["id-b"; "id-b"]).
  { simpl. repeat constructor. }
  split; [exact Hne |]. split; [exact Hknown |].
  destruct (reorder_pages_does_not_validate ["id-b"; "id-b"] two_docs)
    as (_ & Haccept & _ & Hnever).
  split; [exact (Haccept Hne Hknown) | exact Hnever].
Defined.

(** C5: the stored ids are a, b and document b has been edited; the same
    two uploads arrive in the order b, a.  The id sets are equal, the lists
    are not, and the documents are loaded afresh. *)
Lemma same_id_set_reloads_counterexample :
  same_id_set ["id-a"; "id-b"] (map upload_file_id [upload_b; upload_a])
  ∧ images (fst (initialize_state example_imdecode [upload_b; upload_a]
                   two_docs))
    = [new_image_data upload_b (Some (Color [[(57, 57, 57)]]));
       new_image_data upload_a (Some (Color [[(55, 55, 55)]]))]
  ∧ ¬ load_keeps_same_id_set example_imdecode [upload_b; upload_a] two_docs.
Proof.
  assert (Hsame : same_id_set ["id-a"; "id-b"]
                    (map upload_file_id [upload_b; upload_a])).
  { intros k. simpl. rewrite !elem_of_cons. tauto. }
  split; [exact Hsame |]. split; [vm_compute; reflexivity |].
  intros H. specialize (H _ eq_refl Hsame). vm_compute in H. discriminate.
Qed.

Lemma initialize_state_compares_id_lists_witness :
  file_ids two_docs = Some (map upload_file_id [upload_a; upload_b])
  ∧ initialize_state example_imdecode [upload_a; upload_b] two_docs
    = (two_docs, None)
  ∧ file_ids two_docs ≠ Some (map upload_file_id [upload_b; upload_a])
  ∧ Forall (decodes example_imdecode) [upload_b; upload_a]
  ∧ ∃ st',
      initialize_state example_imdecode [upload_b; upload_a] two_docs
      = (st', None)
      ∧ map file_id (images st') = ["id-b"; "id-a"]
      ∧ Forall (λ d, settings d = default_settings) (images st')
      ∧ current_index st' = 0.
Proof.
  assert (H1 : file_ids two_docs
               = Some (map upload_file_id [upload_a; upload_b]))
    by reflexivity.
  assert (H2 : file_ids two_docs
               ≠ Some (map upload_file_id [upload_b; upload_a]))
    by discriminate.
  assert (H3 : Forall (decodes example_imdecode) [upload_b; upload_a]).
  { repeat constructor; eexists; reflexivity. }
  destruct (initialize_state_compares_id_lists example_imdecode
              [upload_a; upload_b] two_docs) as [Hsame _].
  destruct (initialize_state_compares_id_lists example_imdecode
              [upload_b; upload_a] two_docs) as [_ Hdiff].
  split; [exact H1 |]. split.
  { destruct (Hsame H1) as (st' & Hrun & _ & _ & _ & Hkeep & _).
    rewrite Hrun. f_equal. apply Hkeep. simpl. lia. }
  split; [exact H2 |]. split; [exact H3 |].
  destruct (Hdiff H2 H3) as (st' & Hrun & _ & _ & Hids & Hdef & Hidx).
  exists st'. auto.
Defined.

(** C6: the second upload is not an image ([cv2.imdecode] returns [None]);
    the load raises nothing and stores a Document without image for it. *)
Lemma undecodable_source_loaded_counterexample :
  decode_fails example_imdecode upload_bad
  ∧ initialize_state example_imdecode [upload_a; upload_bad] initial_session
    = ({| file_ids := Some ["id-a"; "id-x"];
          images := [new_image_data upload_a (Some (Color [[(55, 55, 55)]]));
                     new_image_data upload_bad None];
          current_index := 0;
          current_style := "Original";
          current_brightness := 0;
          current_contrast := 1%Q |}, None)
  ∧ ¬ load_all_or_nothing example_imdecode [upload_a; upload_bad]
        initial_session.
Proof.
  assert (Hbad : decode_fails example_imdecode upload_bad)
    by (left; reflexivity).
  split; [exact Hbad |]. split; [vm_compute; reflexivity |].
  intros H. destruct H as (up & _ & _ & Hrun).
  - exists upload_bad. split; [right; left | exact Hbad].
  - vm_compute in Hrun. discriminate.
Qed.

Lemma initialize_state_decode_failures_witness :
  file_ids initial_session
  ≠ Some (map upload_file_id [upload_a; upload_bad])
  ∧ Forall (decodes example_imdecode) [upload_a; upload_bad]
  ∧ (∃ st',
       initialize_state example_imdecode [upload_a; upload_bad] initial_session
       = (st', None)
       ∧ Forall2 (loaded_from example_imdecode) [upload_a; upload_bad]
           (images st')
       ∧ new_image_data upload_bad None ∈ images st')
  ∧ file_ids two_docs
    ≠ Some (map upload_file_id [upload_b; upload_empty; upload_a])
  ∧ example_imdecode (upload_read upload_empty) = Raise cv2_error
  ∧ ∃ st',
      initialize_state example_imdecode [upload_b; upload_empty; upload_a]
        two_docs = (st', Some cv2_error)
      ∧ file_ids st' = Some ["id-b"; "id-e"; "id-a"]
      ∧ Forall2 (loaded_from example_imdecode) [upload_b] (images st')
      ∧ current_index st' = 0.
Proof.
  assert (H1 : file_ids initial_session
               ≠ Some (map upload_file_id [upload_a; upload_bad]))
    by discriminate.
  assert (H2 : Forall (decodes example_imdecode) [upload_a; upload_bad]).
  { repeat constructor; eexists; reflexivity. }
  split; [exact H1 |]. split; [exact H2 |].
  destruct (initialize_state_decode_failures example_imdecode
              [upload_a; upload_bad] initial_session H1) as [Hall _].
  split.
  { destruct (Hall H2) as (st' & Hrun & Hdocs & Hnone).
    exists st'. split; [exact Hrun |]. split; [exact Hdocs |].
    apply Hnone; [right; left | reflexivity]. }
  assert (H3 : file_ids two_docs
               ≠ Some (map upload_file_id [upload_b; upload_empty; upload_a]))
    by discriminate.
  assert (H4 : example_imdecode (upload_read upload_empty) = Raise cv2_error)
    by reflexivity.
  split; [exact H3 |]. split; [exact H4 |].
  destruct (initialize_state_decode_failures example_imdecode
              [upload_b; upload_empty; upload_a] two_docs H3) as [_ Hraise].
  apply (Hraise [upload_b] upload_empty [upload_a] cv2_error);
    [reflexivity | | exact H4].
  repeat constructor. eexists. reflexivity.
Defined.

(** C7: the second document is active and stores Black & White, 20, 1.0,
    90, while the widgets hold Original, 0, 1.0; [apply_to_all] writes the
    widget values with rotation 90 everywhere, not the stored record. *)
Lemma widget_values_copied_counterexample :
  active_document two_docs_second_active = Some doc_b
  ∧ apply_to_all two_docs_second_active
    = Ok (set_images
            [set_settings
               {| style := "Original"; brightness := 0;
                  contrast := 1%Q; rotate := 90 |} doc_a;
             set_settings
               {| style := "Original"; brightness := 0;
                  contrast := 1%Q; rotate := 90 |} doc_b]
            two_docs_second_active)
  ∧ ¬ applies_active_settings two_docs_second_active.
Proof.
  split; [reflexivity |]. split; [vm_compute; reflexivity |].
  intros H. destruct (H doc_b eq_refl) as (st' & Hrun & Hall & _).
  vm_compute in Hrun. injection Hrun as <-.
  apply Forall_cons in Hall as [Habs _]. vm_compute in Habs. discriminate.
Qed.

Lemma apply_to_all_copies_and_is_idempotent_witness :
  active_document two_docs = Some doc_a
  ∧ widgets_show two_docs doc_a
  ∧ ∃ st',
      apply_to_all two_docs = Ok st'
      ∧ Forall (λ d', settings d' = settings doc_a) (images st')
      ∧ apply_to_all st' = Ok st'.
Proof.
  assert (H1 : active_document two_docs = Some doc_a) by reflexivity.
  assert (H2 : widgets_show two_docs doc_a) by (repeat split).
  split; [exact H1 |]. split; [exact H2 |].
  destruct (apply_to_all_copies_and_is_idempotent two_docs doc_a H1)
    as (st' & Hrun & _ & _ & Hshow & Hidem).
  exists st'. split; [exact Hrun |]. split; [exact (Hshow H2) | exact Hidem].
Defined.



(** C9 on a document at 270 degrees. *)
Lemma rotate_current_image_advances_mod_360_witness :
  active_document one_doc_270 = Some doc_a_270
  ∧ valid_rotation (rotate (settings doc_a_270))
  ∧ ∃ st' d',
      rotate_current_image one_doc_270 = Ok st'
      ∧ active_document st' = Some d'
      ∧ rotate (settings d') = 0.
Proof.
  assert (H1 : active_document one_doc_270 = Some doc_a_270) by reflexivity.
  assert (H2 : valid_rotation (rotate (settings doc_a_270)))
    by (right; right; right; reflexivity).
  split; [exact H1 |]. split; [exact H2 |].
  destruct (rotate_current_image_advances_mod_360 one_doc_270 doc_a_270 H1 H2)
    as (st' & k & d' & Hrun & _ & _ & Hact & _ & _ & Hwrap & _).
  exists st', d'. split; [exact Hrun |]. split; [exact Hact |].
  apply Hwrap. reflexivity.
Defined.

(** C10 on a known style and on a style outside the enumeration. *)
Lemma process_image_defined_iff_style_known_witness :
  is_bgr example_raster = true
  ∧ valid_style (style default_settings)
  ∧ (∃ out, process_image example_luma example_clahe example_raster
              default_settings = Ok out)
  ∧ ¬ valid_style "Sepia"
  ∧ process_image example_luma example_clahe example_raster
      {| style := "Sepia"; brightness := 0; contrast := 1%Q; rotate := 0 |}
    = Raise (NameError "processed_img").
Proof.
  assert (H1 : is_bgr example_raster = true) by reflexivity.
  assert (H2 : valid_style (style default_settings)) by (left; reflexivity).
  assert (H3 : ¬ valid_style "Sepia") by (intros [E|E]; discriminate).
  split; [exact H1 |]. split; [exact H2 |].
  split.
  { apply (process_image_defined_iff_style_known example_luma example_clahe
             example_raster default_settings H1), H2. }
  split; [exact H3 |].
  apply (process_image_defined_iff_style_known example_luma example_clahe
           example_raster
           {| style := "Sepia"; brightness := 0; contrast := 1%Q; rotate := 0 |}
           H1), H3.
Defined.

(** * Further properties of the code *)

(** ** Navigation *)

Lemma set_current_index_same (st : SessionState) :
  set_current_index (current_index st) st = st.
Proof. destruct st; reflexivity. Qed.

Lemma next_image_images (st : SessionState) :
  images (next_image st) = images st.
Proof. unfold next_image. case_match; reflexivity. Qed.

Lemma prev_image_images (st : SessionState) :
  images (prev_image st) = images st.
Proof. unfold prev_image. case_match; reflexivity. Qed.

Lemma next_image_index (st : SessionState) :
  index_valid st →
  current_index (next_image st)
  = Z.min (current_index st + 1) (Z.of_nat (length (images st)) - 1).
Proof.
  unfold index_valid, next_image. intros H.
  destruct (Z.ltb_spec (current_index st) (Z.of_nat (length (images st)) - 1));
    simpl; lia.
Qed.

Lemma prev_image_index (st : SessionState) :
  index_valid st →
  current_index (prev_image st) = Z.max (current_index st - 1) 0.
Proof.
  unfold index_valid, prev_image. intros H.
  destruct (Z.ltb_spec 0 (current_index st)); simpl; lia.
Qed.

(** X1: [next_image] and [prev_image] keep a valid active index valid, and
    they change no other key of the session: the images, their settings,
    the stored ids and the widget values are as before. *)
Theorem navigation_keeps_index_valid (st : SessionState) :
  index_valid st →
  index_valid (next_image st)
  ∧ index_valid (prev_image st)
  ∧ next_image st = set_current_index (current_index (next_image st)) st
  ∧ prev_image st = set_current_index (current_index (prev_image st)) st.
Proof.
  intros H. pose proof (next_image_index st H) as Hn.
  pose proof (prev_image_index st H) as Hp.
  unfold index_valid in *.
  rewrite next_image_images, prev_image_images, Hn, Hp.
  split; [lia |]. split; [lia |]. split.
  - rewrite <- Hn. unfold next_image. case_match; [reflexivity |].
    rewrite set_current_index_same. reflexivity.
  - rewrite <- Hp. unfold prev_image. case_match; [reflexivity |].
    rewrite set_current_index_same. reflexivity.
Qed.

Lemma navigation_keeps_index_valid_witness :
  index_valid three_docs
  ∧ index_valid (next_image three_docs)
  ∧ index_valid (prev_image three_docs).
Proof.
  assert (H : index_valid three_docs) by (unfold index_valid; simpl; lia).
  split; [exact H |].
  destruct (navigation_keeps_index_valid three_docs H) as (Hn & Hp & _).
  split; [exact Hn | exact Hp].
Defined.

(** X2: navigation does not wrap around and undoes itself away from the ends:
    [next_image] on the last image and [prev_image] on the first change
    nothing; anywhere else [prev_image] after [next_image], and
    [next_image] after [prev_image], give the state back. *)
Theorem navigation_round_trip (st : SessionState) :
  index_valid st →
  (current_index st = Z.of_nat (length (images st)) - 1 → next_image st = st)
  ∧ (current_index st = 0 → prev_image st = st)
  ∧ (current_index st < Z.of_nat (length (images st)) - 1 →
     prev_image (next_image st) = st)
  ∧ (0 < current_index st → next_image (prev_image st) = st).
Proof.
  unfold index_valid. intros H. repeat split.
  - intros E. unfold next_image.
    destruct (Z.ltb_spec (current_index st) (Z.of_nat (length (images st)) - 1));
      [lia | reflexivity].
  - intros E. unfold prev_image.
    destruct (Z.ltb_spec 0 (current_index st)); [lia | reflexivity].
  - intros E. unfold next_image.
    destruct (Z.ltb_spec (current_index st) (Z.of_nat (length (images st)) - 1));
      [| lia].
    unfold prev_image. simpl.
    destruct (Z.ltb_spec 0 (current_index st + 1)); [| lia].
    destruct st; unfold set_current_index; simpl in *. f_equal. lia.
  - intros E. unfold prev_image.
    destruct (Z.ltb_spec 0 (current_index st)); [| lia].
    unfold next_image. simpl.
    destruct (Z.ltb_spec (current_index st - 1)
                (Z.of_nat (length (images st)) - 1)); [| lia].
    destruct st; unfold set_current_index; simpl in *. f_equal. lia.
Qed.

Lemma navigation_round_trip_witness :
  index_valid three_docs
  ∧ current_index three_docs < Z.of_nat (length (images three_docs)) - 1
  ∧ 0 < current_index three_docs
  ∧ prev_image (next_image three_docs) = three_docs
  ∧ next_image (prev_image three_docs) = three_docs
  ∧ next_image (next_image three_docs) = next_image three_docs
  ∧ prev_image (prev_image three_docs) = prev_image three_docs.
Proof.
  assert (H : index_valid three_docs) by (unfold index_valid; simpl; lia).
  assert (H1 : current_index three_docs
               < Z.of_nat (length (images three_docs)) - 1) by (simpl; lia).
  assert (H2 : 0 < current_index three_docs) by (simpl; lia).
  split; [exact H |]. split; [exact H1 |]. split; [exact H2 |].
  destruct (navigation_round_trip three_docs H) as (_ & _ & Hpn & Hnp).
  split; [exact (Hpn H1) |]. split; [exact (Hnp H2) |].
  assert (Hn : index_valid (next_image three_docs))
    by (unfold index_valid; simpl; lia).
  assert (Hp : index_valid (prev_image three_docs))
    by (unfold index_valid; simpl; lia).
  destruct (navigation_round_trip (next_image three_docs) Hn) as (Hlast & _).
  destruct (navigation_round_trip (prev_image three_docs) Hp) as (_ & Hfirst & _).
  split; [apply Hlast; reflexivity | apply Hfirst; reflexivity].
Defined.

(** X3: pressing Next [n] times from a valid index stops at the last image,
    pressing Previous [n] times stops at the first: the index becomes
    [min (index + n) (len - 1)], respectively [max (index - n) 0], and the
    images are untouched. *)
Theorem navigation_repeated_is_clamped (n : nat) (st : SessionState) :
  index_valid st →
  current_index (Nat.iter n next_image st)
  = Z.min (current_index st + Z.of_nat n) (Z.of_nat (length (images st)) - 1)
  ∧ current_index (Nat.iter n prev_image st)
    = Z.max (current_index st - Z.of_nat n) 0
  ∧ images (Nat.iter n next_image st) = images st
  ∧ images (Nat.iter n prev_image st) = images st.
Proof.
  intros H. induction n as [|n (IHn & IHp & IHni & IHpi)].
  - simpl. unfold index_valid in H. repeat split; lia.
  - rewrite !Nat.iter_succ.
    assert (Hvn : index_valid (Nat.iter n next_image st)).
    { unfold index_valid in *. rewrite IHni, IHn. lia. }
    assert (Hvp : index_valid (Nat.iter n prev_image st)).
    { unfold index_valid in *. rewrite IHpi, IHp. lia. }
    rewrite (next_image_index _ Hvn), (prev_image_index _ Hvp).
    rewrite next_image_images, prev_image_images, IHn, IHp, IHni, IHpi.
    unfold index_valid in H. repeat split; lia.
Qed.

Lemma navigation_repeated_is_clamped_witness :
  index_valid three_docs
  ∧ current_index (Nat.iter 5 next_image three_docs) = 2
  ∧ current_index (Nat.iter 5 prev_image three_docs) = 0.
Proof.
  assert (H : index_valid three_docs) by (unfold index_valid; simpl; lia).
  split; [exact H |].
  destruct (navigation_repeated_is_clamped 5 three_docs H) as (Hn & Hp & _).
  split; [rewrite Hn | rewrite Hp]; reflexivity.
Defined.

(** ** The settings callbacks *)

Lemma py_index_None {A} (l : list A) (i : Z) :
  py_index l i = None ↔
  ¬ (- Z.of_nat (length l) <= i < Z.of_nat (length l)).
Proof.
  unfold py_index.
  destruct (Z.leb_spec 0 i), (Z.ltb_spec i (Z.of_nat (length l))),
    (Z.leb_spec (- Z.of_nat (length l)) i), (Z.ltb_spec i 0); simpl;
    split; intros Hx; try discriminate; try lia; try reflexivity;
    exfalso; apply Hx; lia.
Qed.

Lemma py_getitem_in_range {A} (l : list A) (i : Z) :
  - Z.of_nat (length l) <= i < Z.of_nat (length l) →
  ∃ k x, py_getitem l i = Ok (k, x).
Proof.
  intros H. destruct (py_index l i) as [k|] eqn:E.
  - destruct (lookup_lt_is_Some_2 l k (py_index_lt l i k E)) as [x Hx].
    exists k, x. apply py_getitem_Ok. auto.
  - apply py_index_None in E. contradiction.
Qed.

Lemma py_getitem_out_of_range {A} (l : list A) (i : Z) :
  ¬ (- Z.of_nat (length l) <= i < Z.of_nat (length l)) →
  py_getitem l i = Raise IndexError.
Proof.
  intros H. apply py_index_None in H. unfold py_getitem. rewrite H.
  reflexivity.
Qed.

Lemma rotate_current_image_Ok (st : SessionState) (k : nat) (d : ImageData) :
  py_getitem (images st) (current_index st) = Ok (k, d) →
  rotate_current_image st
  = Ok (set_images (<[k := rotated_document d]> (images st)) st).
Proof. intros H. unfold rotate_current_image. rewrite H. reflexivity. Qed.

Lemma update_current_image_settings_Ok (st : SessionState) (k : nat)
    (d : ImageData) :
  py_getitem (images st) (current_index st) = Ok (k, d) →
  update_current_image_settings st
  = Ok (set_images
          (<[k := set_settings (widget_settings st (rotate (settings d))) d]>
             (images st)) st).
Proof.
  intros H. unfold update_current_image_settings. rewrite H. reflexivity.
Qed.

Lemma apply_to_all_Ok (st : SessionState) (k : nat) (d : ImageData) :
  py_getitem (images st) (current_index st) = Ok (k, d) →
  apply_to_all st
  = Ok (set_images
          (map (set_settings (widget_settings st (rotate (settings d))))
             (images st)) st).
Proof. intros H. unfold apply_to_all. rewrite H. reflexivity. Qed.

(** X4: the three settings callbacks index the image list with
    [current_index] as Python does: they run exactly when the index lies in
    [-len, len), a negative index counting from the end, and raise
    [IndexError] otherwise, in particular whenever there is no image. *)
Theorem settings_callbacks_index_error (st : SessionState) :
  (- Z.of_nat (length (images st)) <= current_index st
     < Z.of_nat (length (images st)) →
   (∃ st', rotate_current_image st = Ok st')
   ∧ (∃ st', apply_to_all st = Ok st')
   ∧ (∃ st', update_current_image_settings st = Ok st'))
  ∧ (¬ (- Z.of_nat (length (images st)) <= current_index st
          < Z.of_nat (length (images st))) →
     rotate_current_image st = Raise IndexError
     ∧ apply_to_all st = Raise IndexError
     ∧ update_current_image_settings st = Raise IndexError)
  ∧ (images st = [] →
     rotate_current_image st = Raise IndexError
     ∧ apply_to_all st = Raise IndexError
     ∧ update_current_image_settings st = Raise IndexError).
Proof.
  assert (Hout : ¬ (- Z.of_nat (length (images st)) <= current_index st
                      < Z.of_nat (length (images st))) →
     rotate_current_image st = Raise IndexError
     ∧ apply_to_all st = Raise IndexError
     ∧ update_current_image_settings st = Raise IndexError).
  { intros H. apply py_getitem_out_of_range in H.
    unfold rotate_current_image, apply_to_all, update_current_image_settings.
    rewrite H. repeat split. }
  split; [| split; [exact Hout |]].
  - intros H. apply py_getitem_in_range in H as (k & d & H).
    rewrite (rotate_current_image_Ok st k d H), (apply_to_all_Ok st k d H),
      (update_current_image_settings_Ok st k d H).
    split; [| split]; eexists; reflexivity.
  - intros E. apply Hout. rewrite E. simpl. lia.
Qed.

Lemma settings_callbacks_index_error_witness :
  images initial_session = []
  ∧ rotate_current_image initial_session = Raise IndexError
  ∧ apply_to_all initial_session = Raise IndexError
  ∧ update_current_image_settings initial_session = Raise IndexError
  ∧ ¬ (- Z.of_nat (length (images (set_current_index 2 two_docs)))
       <= current_index (set_current_index 2 two_docs)
       < Z.of_nat (length (images (set_current_index 2 two_docs))))
  ∧ rotate_current_image (set_current_index 2 two_docs) = Raise IndexError
  ∧ - Z.of_nat (length (images (set_current_index (-1) two_docs)))
    <= current_index (set_current_index (-1) two_docs)
    < Z.of_nat (length (images (set_current_index (-1) two_docs)))
  ∧ ∃ st', rotate_current_image (set_current_index (-1) two_docs) = Ok st'.
Proof.
  assert (H1 : images initial_session = []) by reflexivity.
  assert (H2 : ¬ (- Z.of_nat (length (images (set_current_index 2 two_docs)))
                  <= current_index (set_current_index 2 two_docs)
                  < Z.of_nat (length (images (set_current_index 2 two_docs)))))
    by (simpl; lia).
  assert (H3 : - Z.of_nat (length (images (set_current_index (-1) two_docs)))
               <= current_index (set_current_index (-1) two_docs)
               < Z.of_nat (length (images (set_current_index (-1) two_docs))))
    by (simpl; lia).
  destruct (settings_callbacks_index_error initial_session) as (_ & _ & He).
  destruct (He H1) as (Hr & Ha & Hu).
  destruct (settings_callbacks_index_error (set_current_index 2 two_docs))
    as (_ & Ho & _).
  destruct (settings_callbacks_index_error (set_current_index (-1) two_docs))
    as (Hi & _ & _).
  split; [exact H1 |]. split; [exact Hr |]. split; [exact Ha |].
  split; [exact Hu |]. split; [exact H2 |].
  split; [exact (proj1 (Ho H2)) |]. split; [exact H3 |].
  exact (proj1 (Hi H3)).
Defined.

Lemma bind_Ok {A B} (f : A → result B) (a : A) : (Ok a ≫= f) = f a.
Proof. reflexivity. Qed.

Lemma map_insert_same {A B} (f : A → B) (l : list A) (k : nat) (x y : A) :
  l !! k = Some x → f y = f x → map f (<[k := y]> l) = map f l.
Proof.
  intros Hk E.
  change (f <$> <[k := y]> l = f <$> l).
  rewrite list_fmap_insert, E. apply list_insert_id.
  rewrite list_lookup_fmap, Hk. reflexivity.
Qed.

(** What each settings callback leaves behind when it returns. *)
Lemma settings_callback_Ok (st st' : SessionState) :
  rotate_current_image st = Ok st'
  ∨ apply_to_all st = Ok st'
  ∨ update_current_image_settings st = Ok st' →
  ∃ k d, py_getitem (images st) (current_index st) = Ok (k, d)
    ∧ (images st' = <[k := rotated_document d]> (images st)
       ∨ images st'
         = map (set_settings (widget_settings st (rotate (settings d))))
             (images st)
       ∨ images st'
         = <[k := set_settings (widget_settings st (rotate (settings d))) d]>
             (images st))
    ∧ st' = set_images (images st') st.
Proof.
  destruct (py_getitem (images st) (current_index st)) as [[k d]|e] eqn:E.
  - rewrite (rotate_current_image_Ok st k d E), (apply_to_all_Ok st k d E),
      (update_current_image_settings_Ok st k d E).
    intros [[= <-] | [[= <-] | [= <-]]]; exists k, d; simpl; auto.
  - unfold rotate_current_image, apply_to_all, update_current_image_settings.
    rewrite E. intros [H | [H | H]]; discriminate.
Qed.

(** X5: [rotate_current_image], [apply_to_all] and the setter write settings
    only: when one of them returns, every image has the id, the name and
    the original pixels it had, at the position it had, and the active
    index, the stored ids and the widget values are unchanged. *)
Theorem settings_callbacks_touch_settings_only (st st' : SessionState) :
  rotate_current_image st = Ok st'
  ∨ apply_to_all st = Ok st'
  ∨ update_current_image_settings st = Ok st' →
  map file_id (images st') = map file_id (images st)
  ∧ map name (images st') = map name (images st)
  ∧ map original_bgr (images st') = map original_bgr (images st)
  ∧ length (images st') = length (images st)
  ∧ st' = set_images (images st') st.
Proof.
  intros H. apply settings_callback_Ok in H as (k & d & Hget & Himgs & Hst').
  apply py_getitem_Ok in Hget as [_ Hk].
  split; [| split; [| split; [| split; [| exact Hst']]]];
    destruct Himgs as [-> | [-> | ->]];
    rewrite ?length_insert, ?length_map, ?map_map;
    try reflexivity;
    try (apply (map_insert_same _ _ _ d); [exact Hk | reflexivity]).
Qed.

Lemma settings_callbacks_touch_settings_only_witness :
  apply_to_all three_docs
  = Ok (set_images
          (map (set_settings
                  {| style := "Black & White"; brightness := 20;
                     contrast := 1%Q; rotate := 90 |})
             [doc_a; doc_b; doc_c]) three_docs)
  ∧ map file_id
      (map (set_settings
              {| style := "Black & White"; brightness := 20;
                 contrast := 1%Q; rotate := 90 |}) [doc_a; doc_b; doc_c])
    = ["id-a"; "id-b"; "id-c"].
Proof.
  assert (H : apply_to_all three_docs
              = Ok (set_images
                      (map (set_settings
                              {| style := "Black & White"; brightness := 20;
                                 contrast := 1%Q; rotate := 90 |})
                         [doc_a; doc_b; doc_c]) three_docs))
    by reflexivity.
  split; [exact H |].
  exact (proj1 (settings_callbacks_touch_settings_only three_docs _
                  (or_intror (or_introl H)))).
Defined.

(** ** Turning an image all the way round *)

Lemma rotated_four_times (d : ImageData) :
  0 <= rotate (settings d) < 360 →
  rotated_document (rotated_document (rotated_document (rotated_document d)))
  = d.
Proof.
  intros H. destruct d as [i o n [s b c r]].
  unfold rotated_document, set_settings, set_rotate. simpl in *.
  do 2 f_equal.
  assert (Hstep : ∀ x, 0 <= x < 360 →
            0 <= (x + 90) `mod` 360 < 360
            ∧ ((x + 90) `mod` 360 = x + 90 ∨ (x + 90) `mod` 360 = x - 270)).
  { intros x Hx. Z.div_mod_to_equations. lia. }
  destruct (Hstep r H) as [B1 E1].
  set (r1 := (r + 90) `mod` 360) in *.
  destruct (Hstep r1 B1) as [B2 E2].
  set (r2 := (r1 + 90) `mod` 360) in *.
  destruct (Hstep r2 B2) as [B3 E3].
  set (r3 := (r2 + 90) `mod` 360) in *.
  destruct (Hstep r3 B3) as [B4 E4].
  set (r4 := (r3 + 90) `mod` 360) in *.
  lia.
Qed.

Lemma rotate_current_image_again (st : SessionState) (k : nat)
    (d : ImageData) :
  py_getitem (images st) (current_index st) = Ok (k, d) →
  py_getitem (images (set_images (<[k := rotated_document d]> (images st)) st))
    (current_index (set_images (<[k := rotated_document d]> (images st)) st))
  = Ok (k, rotated_document d).
Proof. intros H. simpl. eapply py_getitem_insert, H. Qed.

(** X6: four presses of the rotate button give the state back: when the active
    image stores a rotation in [0, 360), [rotate_current_image] applied four
    times in a row succeeds each time and ends in the starting state. *)
Theorem rotate_current_image_four_times (st : SessionState) (d : ImageData) :
  active_document st = Some d →
  0 <= rotate (settings d) < 360 →
  ((rotate_current_image st ≫= rotate_current_image)
     ≫= rotate_current_image) ≫= rotate_current_image = Ok st.
Proof.
  intros Hact Hr. apply active_document_Some in Hact as [k H0].
  pose proof (rotate_current_image_again st k d H0) as H1.
  rewrite (rotate_current_image_Ok st k d H0), bind_Ok.
  set (st1 := set_images (<[k := rotated_document d]> (images st)) st) in *.
  pose proof (rotate_current_image_again st1 k _ H1) as H2.
  rewrite (rotate_current_image_Ok st1 k _ H1), bind_Ok.
  set (st2 := set_images (<[k := rotated_document (rotated_document d)]>
                            (images st1)) st1) in *.
  pose proof (rotate_current_image_again st2 k _ H2) as H3.
  rewrite (rotate_current_image_Ok st2 k _ H2), bind_Ok.
  rewrite (rotate_current_image_Ok _ k _ H3).
  f_equal. unfold st2, st1, set_images. simpl.
  rewrite !list_insert_insert_eq, (rotated_four_times d Hr).
  apply py_getitem_Ok in H0 as [_ Hk].
  rewrite (list_insert_id _ _ _ Hk). destruct st; reflexivity.
Qed.

Lemma rotate_current_image_four_times_witness :
  active_document three_docs = Some doc_b
  ∧ 0 <= rotate (settings doc_b) < 360
  ∧ ((rotate_current_image three_docs ≫= rotate_current_image)
       ≫= rotate_current_image) ≫= rotate_current_image = Ok three_docs.
Proof.
  assert (H1 : active_document three_docs = Some doc_b) by reflexivity.
  assert (H2 : 0 <= rotate (settings doc_b) < 360) by (simpl; lia).
  split; [exact H1 |]. split; [exact H2 |].
  exact (rotate_current_image_four_times three_docs doc_b H1 H2).
Defined.

(** ** The setter followed by the bulk apply *)

Lemma set_settings_set_settings (s1 s2 : Settings) (d : ImageData) :
  set_settings s1 (set_settings s2 d) = set_settings s1 d.
Proof. reflexivity. Qed.

(** X7: storing the widget values and then applying to all: when the active
    image exists, the setter gives it the widget values and keeps its
    rotation; calling the setter again changes nothing; [apply_to_all] after
    the setter gives every image the settings the active image now stores;
    and that state is the one [apply_to_all] reaches without the setter. *)
Theorem update_then_apply_to_all (st : SessionState) (d : ImageData) :
  active_document st = Some d →
  ∃ st1 d1 st2,
    update_current_image_settings st = Ok st1
    ∧ active_document st1 = Some d1
    ∧ settings d1 = widget_settings st (rotate (settings d))
    ∧ update_current_image_settings st1 = Ok st1
    ∧ apply_to_all st1 = Ok st2
    ∧ Forall (λ d', settings d' = settings d1) (images st2)
    ∧ apply_to_all st = Ok st2.
Proof.
  intros Hact. apply active_document_Some in Hact as [k Hget].
  set (cs := widget_settings st (rotate (settings d))).
  set (d1 := set_settings cs d).
  set (st1 := set_images (<[k := d1]> (images st)) st).
  assert (Hget1 : py_getitem (images st1) (current_index st1) = Ok (k, d1)).
  { simpl. eapply py_getitem_insert, Hget. }
  pose proof Hget as Hk. apply py_getitem_Ok in Hk as [_ Hk].
  exists st1, d1, (set_images (map (set_settings cs) (images st)) st).
  split; [apply (update_current_image_settings_Ok st k d Hget) |].
  split; [apply active_document_Some; eauto |].
  split; [reflexivity |]. split.
  { rewrite (update_current_image_settings_Ok st1 k d1 Hget1).
    unfold st1, set_images. simpl. fold cs.
    change (set_settings cs d1) with d1.
    rewrite list_insert_insert_eq. reflexivity. }
  assert (Hmap : map (set_settings cs) (<[k := d1]> (images st))
                 = map (set_settings cs) (images st)).
  { apply (map_insert_same _ _ _ d); [exact Hk | reflexivity]. }
  split.
  { rewrite (apply_to_all_Ok st1 k d1 Hget1).
    change (widget_settings st1 (rotate (settings d1))) with cs.
    change (images st1) with (<[k := d1]> (images st)).
    rewrite Hmap. reflexivity. }
  split.
  { simpl. apply Forall_forall. intros x Hx. apply list_elem_of_In in Hx.
    apply in_map_iff in Hx as (x0 & <- & _). reflexivity. }
  apply (apply_to_all_Ok st k d Hget).
Qed.

Lemma update_then_apply_to_all_witness :
  active_document three_docs = Some doc_b
  ∧ ∃ st1 d1 st2,
      update_current_image_settings three_docs = Ok st1
      ∧ active_document st1 = Some d1
      ∧ update_current_image_settings st1 = Ok st1
      ∧ apply_to_all st1 = Ok st2
      ∧ Forall (λ d', settings d' = settings d1) (images st2)
      ∧ apply_to_all three_docs = Ok st2.
Proof.
  assert (H : active_document three_docs = Some doc_b) by reflexivity.
  split; [exact H |].
  destruct (update_then_apply_to_all three_docs doc_b H)
    as (st1 & d1 & st2 & H1 & H2 & _ & H3 & H4 & H5 & H6).
  exists st1, d1, st2. auto 10.
Defined.

(** ** The rotation invariant under the other operations *)

Section RotationInvariant.

Variable imdecode : list Byte.byte → result (option ndarray).

Lemma load_loop_rotations (uploads : list UploadedFile) (acc : list ImageData) :
  Forall (λ d, valid_rotation (rotate (settings d))) acc →
  Forall (λ d, valid_rotation (rotate (settings d)))
    (load_loop imdecode uploads acc).1.
Proof.
  revert acc. induction uploads as [|up rest IH]; intros acc H; [exact H |].
  simpl. destruct (imdecode (upload_read up)) as [bgr|e]; [| exact H].
  apply IH. apply Forall_app. split; [exact H |].
  constructor; [left; reflexivity | constructor].
Qed.

Lemma initialize_state_images (uploads : list UploadedFile) (st : SessionState) :
  images (initialize_state imdecode uploads st).1
  = if file_ids_changed st (map upload_file_id uploads)
    then (load_loop imdecode uploads []).1
    else images st.
Proof.
  unfold initialize_state.
  destruct (file_ids_changed st (map upload_file_id uploads)).
  - destruct (load_loop imdecode uploads []) as [imgs [e|]]; simpl;
      [reflexivity |].
    destruct (Z.of_nat (length imgs) <=? 0); reflexivity.
  - simpl. destruct (Z.of_nat (length (images st)) <=? current_index st);
      reflexivity.
Qed.

(** X8: every operation other than the rotate button keeps the rotations
    valid too: if every image stores one of 0, 90, 180, 270, so does every
    image after navigation, after the setter, after [apply_to_all], after a
    reorder that returns, and after [initialize_state], also when the load
    ends in an exception. *)
Theorem rotations_stay_valid (st : SessionState) :
  rotations_valid st →
  rotations_valid (next_image st)
  ∧ rotations_valid (prev_image st)
  ∧ (∀ st', update_current_image_settings st = Ok st' → rotations_valid st')
  ∧ (∀ st', apply_to_all st = Ok st' → rotations_valid st')
  ∧ (∀ new_file_id_order st',
       reorder_pages new_file_id_order st = Ok st' → rotations_valid st')
  ∧ (∀ uploads, rotations_valid (initialize_state imdecode uploads st).1).
Proof.
  unfold rotations_valid. intros H.
  rewrite next_image_images, prev_image_images.
  split; [exact H |]. split; [exact H |]. split; [| split; [| split]].
  - intros st' Hrun.
    destruct (settings_callback_Ok st st' (or_intror (or_intror Hrun)))
      as (k & d & Hget & _ & _).
    rewrite (update_current_image_settings_Ok st k d Hget) in Hrun.
    injection Hrun as <-. simpl. apply Forall_insert; [exact H |].
    simpl. apply py_getitem_Ok in Hget as [_ Hk].
    rewrite Forall_forall in H. apply H. eapply list_elem_of_lookup_2, Hk.
  - intros st' Hrun.
    destruct (settings_callback_Ok st st' (or_intror (or_introl Hrun)))
      as (k & d & Hget & _ & _).
    rewrite (apply_to_all_Ok st k d Hget) in Hrun.
    injection Hrun as <-. simpl.
    apply py_getitem_Ok in Hget as [_ Hk].
    assert (Hd : valid_rotation (rotate (settings d))).
    { rewrite Forall_forall in H. apply H. eapply list_elem_of_lookup_2, Hk. }
    apply Forall_forall. intros x Hx. apply list_elem_of_In in Hx.
    apply in_map_iff in Hx as (x0 & <- & _). exact Hd.
  - intros new st' Hrun. apply reorder_pages_Ok in Hrun as (_ & Hin & _).
    apply Forall_forall. intros x Hx. rewrite Forall_forall in Hin, H.
    apply H, Hin, Hx.
  - intros uploads. rewrite initialize_state_images.
    destruct (file_ids_changed st (map upload_file_id uploads)); [| exact H].
    apply load_loop_rotations. constructor.
Qed.

End RotationInvariant.

Lemma rotations_stay_valid_witness :
  rotations_valid three_docs
  ∧ rotations_valid
      (initialize_state example_imdecode [upload_b; upload_empty] three_docs).1
  ∧ rotations_valid (next_image three_docs).
Proof.
  assert (H : rotations_valid three_docs).
  { unfold rotations_valid. simpl.
    apply Forall_cons_2; [left; reflexivity |].
    apply Forall_cons_2; [right; left; reflexivity |].
    apply Forall_cons_2; [left; reflexivity | apply Forall_nil_2]. }
  split; [exact H |].
  destruct (rotations_stay_valid example_imdecode three_docs H)
    as (Hn & _ & _ & _ & _ & Hl).
  split; [apply Hl | exact Hn].
Defined.

(** ** Loading twice *)

Section LoadAgain.

Variable imdecode : list Byte.byte → result (option ndarray).

Lemma initialize_state_file_ids (uploads : list UploadedFile)
    (st : SessionState) :
  file_ids (initialize_state imdecode uploads st).1
  = Some (map upload_file_id uploads).
Proof.
  unfold initialize_state, file_ids_changed.
  destruct (file_ids st) as [ids|] eqn:E.
  - case_bool_decide as Hids; simpl.
    + subst ids.
      destruct (Z.of_nat (length (images st)) <=? current_index st);
        simpl; exact E.
    + destruct (load_loop imdecode uploads []) as [imgs [e|]]; simpl;
        [reflexivity |].
      destruct (Z.of_nat (length imgs) <=? 0); reflexivity.
  - destruct (load_loop imdecode uploads []) as [imgs [e|]]; simpl;
      [reflexivity |].
    destruct (Z.of_nat (length imgs) <=? 0); reflexivity.
Qed.

Lemma initialize_state_index (uploads : list UploadedFile) (st : SessionState) :
  current_index (initialize_state imdecode uploads st).1 = 0
  ∨ (current_index (initialize_state imdecode uploads st).1
       = current_index st
     ∧ current_index st
       < Z.of_nat (length (images (initialize_state imdecode uploads st).1))).
Proof.
  unfold initialize_state.
  destruct (file_ids_changed st (map upload_file_id uploads)).
  - left. destruct (load_loop imdecode uploads []) as [imgs [e|]]; simpl;
      [reflexivity |].
    destruct (Z.of_nat (length imgs) <=? 0); reflexivity.
  - simpl. destruct (Z.leb_spec (Z.of_nat (length (images st)))
                       (current_index st)); simpl; [left; reflexivity |].
    right. split; [reflexivity | lia].
Qed.

(** X9: after [initialize_state], whether it returned or a decoder exception
    ended it, a non-negative active index points at an image whenever there
    is one, and is 0 when there is none. *)
Theorem initialize_state_leaves_index_valid (uploads : list UploadedFile)
    (st : SessionState) :
  0 <= current_index st →
  (images (initialize_state imdecode uploads st).1 ≠ [] →
   index_valid (initialize_state imdecode uploads st).1)
  ∧ (images (initialize_state imdecode uploads st).1 = [] →
     current_index (initialize_state imdecode uploads st).1 = 0).
Proof.
  intros H0. destruct (initialize_state_index uploads st) as [E | [E Hlt]].
  - split; [| intros _; exact E]. intros Hne. unfold index_valid. rewrite E.
    destruct (images (initialize_state imdecode uploads st).1);
      [congruence | simpl; lia].
  - split.
    + intros _. unfold index_valid. rewrite E. lia.
    + intros Hnil. rewrite Hnil in Hlt. simpl in Hlt. lia.
Qed.

(** X10: a second [initialize_state] with the same uploads changes nothing and
    raises nothing, whatever the first one did: the stored ids already
    equal the incoming ones.  So a load that a decoder exception cut short
    is not tried again on the next run of the script; the images loaded
    before the exception stay as the document list. *)
Theorem initialize_state_second_call (uploads : list UploadedFile)
    (st : SessionState) :
  initialize_state imdecode uploads (initialize_state imdecode uploads st).1
  = ((initialize_state imdecode uploads st).1, None).
Proof.
  rewrite (initialize_state_same_ids imdecode uploads _
             (initialize_state_file_ids uploads st)).
  destruct (Z.leb_spec
              (Z.of_nat (length (images (initialize_state imdecode uploads st).1)))
              (current_index (initialize_state imdecode uploads st).1));
    [| reflexivity].
  destruct (initialize_state_index uploads st) as [E | [E Hlt]].
  - rewrite <- E at 1. rewrite set_current_index_same. reflexivity.
  - lia.
Qed.

End LoadAgain.

Lemma initialize_state_leaves_index_valid_witness :
  0 <= current_index three_docs
  ∧ index_valid
      (initialize_state example_imdecode [upload_b; upload_empty] three_docs).1
  ∧ index_valid
      (initialize_state example_imdecode [upload_a; upload_b]
         (set_current_index 2 two_docs)).1.
Proof.
  assert (H : 0 <= current_index three_docs) by (simpl; lia).
  assert (H' : 0 <= current_index (set_current_index 2 two_docs))
    by (simpl; lia).
  split; [exact H |]. split.
  - apply (initialize_state_leaves_index_valid example_imdecode
             [upload_b; upload_empty] three_docs H). discriminate.
  - apply (initialize_state_leaves_index_valid example_imdecode
             [upload_a; upload_b] (set_current_index 2 two_docs) H').
    discriminate.
Defined.

(** ** Reordering back and again *)

(** Closes [k ∉ [k1; ...; kn]] for distinct literal ids. *)
Ltac id_not_listed :=
  let H := fresh "Hin" in
  intros H;
  repeat (apply elem_of_cons in H as [H | H]; [discriminate |]);
  inversion H.

Lemma reorder_pages_to (docs : list ImageData) (st : SessionState) :
  NoDup (map file_id (images st)) →
  docs ≡ₚ images st →
  reorder_pages (map file_id docs) st = Ok (set_images docs st).
Proof.
  intros Hnd Hdocs. unfold reorder_pages. case_bool_decide as Hchg.
  - rewrite lookups_Ok; [reflexivity |].
    apply Forall_forall. intros d Hd.
    apply image_data_map_unique; [exact Hnd |].
    rewrite <- Hdocs. exact Hd.
  - assert (E : map file_id (images st) = map file_id docs).
    { destruct (decide (map file_id (images st) = map file_id docs));
        [assumption | contradiction]. }
    assert (E' : images st = docs).
    { apply (same_ids_same_documents (images st)); [exact Hnd | | | exact E].
      - apply Forall_forall. auto.
      - apply Forall_forall. intros d Hd. rewrite <- Hdocs. exact Hd. }
    rewrite <- E', set_images_same. reflexivity.
Qed.

(** X11: with unique ids, reordering by a permutation of the ids can be undone
    and chained: the reordered list still has unique ids, reordering it by
    the original id order gives the original state back, and reordering it
    by any further permutation gives what that permutation gives on the
    original state. *)
Theorem reorder_pages_round_trip (new_file_id_order : list string)
    (st : SessionState) :
  NoDup (map file_id (images st)) →
  new_file_id_order ≡ₚ map file_id (images st) →
  ∃ st',
    reorder_pages new_file_id_order st = Ok st'
    ∧ NoDup (map file_id (images st'))
    ∧ reorder_pages (map file_id (images st)) st' = Ok st
    ∧ ∀ next_order,
        next_order ≡ₚ map file_id (images st) →
        reorder_pages next_order st' = reorder_pages next_order st.
Proof.
  intros Hnd Hperm.
  apply Permutation_map_inv in Hperm as (docs & -> & Hdocs).
  assert (Hnd' : NoDup (map file_id docs)).
  { rewrite <- Hdocs. exact Hnd. }
  exists (set_images docs st).
  split; [apply reorder_pages_to; [exact Hnd | symmetry; exact Hdocs] |].
  split; [exact Hnd' |]. split.
  - rewrite (reorder_pages_to (images st) (set_images docs st));
      [| exact Hnd' | exact Hdocs].
    f_equal. destruct st; reflexivity.
  - intros next Hnext.
    apply Permutation_map_inv in Hnext as (docs2 & -> & Hdocs2).
    rewrite (reorder_pages_to docs2 (set_images docs st));
      [| exact Hnd' | simpl; rewrite <- Hdocs2, <- Hdocs; reflexivity].
    rewrite (reorder_pages_to docs2 st);
      [| exact Hnd | symmetry; exact Hdocs2].
    reflexivity.
Qed.

Lemma reorder_pages_round_trip_witness :
  NoDup (map file_id (images three_docs))
  ∧ ["id-c"; "id-a"; "id-b"] ≡ₚ map file_id (images three_docs)
  ∧ ∃ st',
      reorder_pages ["id-c"; "id-a"; "id-b"] three_docs = Ok st'
      ∧ images st' = [doc_c; doc_a; doc_b]
      ∧ reorder_pages (map file_id (images three_docs)) st' = Ok three_docs.
Proof.
  assert (Hnd : NoDup (map file_id (images three_docs))).
  { simpl. repeat (apply NoDup_cons_2; [id_not_listed |]). apply NoDup_nil_2. }
  assert (Hperm : ["id-c"; "id-a"; "id-b"] ≡ₚ map file_id (images three_docs)).
  { simpl. symmetry. etransitivity; [apply perm_skip, perm_swap |].
    apply perm_swap. }
  split; [exact Hnd |]. split; [exact Hperm |].
  destruct (reorder_pages_round_trip _ three_docs Hnd Hperm)
    as (st' & Hrun & _ & Hback & _).
  exists st'. split; [exact Hrun |]. split; [| exact Hback].
  assert (E : reorder_pages ["id-c"; "id-a"; "id-b"] three_docs
              = Ok (set_images [doc_c; doc_a; doc_b] three_docs))
    by (vm_compute; reflexivity).
  rewrite E in Hrun. injection Hrun as <-. reflexivity.
Defined.

(** ** Images that share an id *)

(** X12: the lookup table of the reorder block keeps, for each id, the last
    image with that id: an image followed by no image of the same id is
    the one its id finds, and an id no image has finds nothing.  So when
    two images share an id the reorder can only ever place the later
    one. *)
Theorem image_data_map_last_wins (before after : list ImageData)
    (d : ImageData) :
  file_id d ∉ map file_id after →
  image_data_map (before ++ d :: after) !! file_id d = Some d
  ∧ (∀ k, k ∉ map file_id (before ++ d :: after) →
       image_data_map (before ++ d :: after) !! k = None)
  ∧ ∀ st new_file_id_order st',
      images st = before ++ d :: after →
      reorder_pages new_file_id_order st = Ok st' →
      new_file_id_order ≠ map file_id (images st) →
      ∀ d', d' ∈ images st' → file_id d' = file_id d → d' = d.
Proof.
  intros Hlast.
  assert (Hd : image_data_map (before ++ d :: after) !! file_id d = Some d).
  { unfold image_data_map. rewrite foldl_app. simpl.
    rewrite table_lookup_acc by exact Hlast. apply lookup_insert_eq. }
  split; [exact Hd |]. split; [intros k; apply image_data_map_foreign |].
  intros st new st' Himgs Hrun Hne d' Hin Hid.
  unfold reorder_pages in Hrun.
  rewrite bool_decide_eq_true_2 in Hrun; [| congruence].
  destruct (mapM _ new) as [docs|e] eqn:E; [| discriminate].
  injection Hrun as <-. simpl in Hin.
  apply lookups_inv in E. rewrite Himgs in E.
  apply list_elem_of_lookup in Hin as [i Hi].
  destruct (Forall2_lookup_r _ _ _ _ _ E Hi) as (k & _ & Hk).
  pose proof (image_data_map_inv _ _ _ Hk) as [_ Hkd].
  rewrite <- Hkd, Hid, Hd in Hk. congruence.
Qed.

Lemma image_data_map_last_wins_witness :
  (file_id doc_a_again ∉ map file_id [doc_b])
  ∧ image_data_map [doc_a; doc_a_again; doc_b] !! "id-a" = Some doc_a_again
  ∧ reorder_pages ["id-b"; "id-a"]
      (set_images [doc_a; doc_a_again; doc_b] two_docs)
    = Ok (set_images [doc_b; doc_a_again]
            (set_images [doc_a; doc_a_again; doc_b] two_docs)).
Proof.
  assert (H : file_id doc_a_again ∉ map file_id [doc_b]).
  { simpl. intros Hin. apply list_elem_of_singleton in Hin. discriminate. }
  split; [exact H |].
  split; [exact (proj1 (image_data_map_last_wins [doc_a] [doc_b]
                          doc_a_again H)) |].
  vm_compute. reflexivity.
Defined.

(** ** The PDF pages *)

Lemma mapM_result_cons {A B} (f : A → result B) (x : A) (l : list A) :
  mapM f (x :: l) =
  match f x with
  | Ok y =>
      match mapM f l with
      | Ok k => Ok (y :: k)
      | Raise e => Raise e
      end
  | Raise e => Raise e
  end.
Proof.
  change (mapM f (x :: l))
    with (result_bind (λ y, result_bind (λ k, Ok (y :: k)) (mapM f l)) (f x)).
  destruct (f x); reflexivity.
Qed.

Lemma mapM_result_Ok {A B} (f : A → result B) (l : list A) (k : list B) :
  mapM f l = Ok k ↔ Forall2 (λ x y, f x = Ok y) l k.
Proof.
  revert k. induction l as [|x l IH]; intros k.
  - split.
    + intros [= <-]. constructor.
    + intros H. inversion H. reflexivity.
  - rewrite mapM_result_cons. split.
    + destruct (f x) as [y|e] eqn:Hx; [| discriminate].
      destruct (mapM f l) as [k'|e]; [| discriminate].
      intros [= <-]. constructor; [exact Hx | apply IH; reflexivity].
    + intros H. inversion H as [|? y ? k' Hx Hl]; subst.
      rewrite Hx. apply IH in Hl. rewrite Hl. reflexivity.
Qed.

Lemma mapM_result_Raise {A B} (f : A → result B) (pre post : list A) (x : A)
    (e : exn) :
  Forall (λ x, ∃ y, f x = Ok y) pre → f x = Raise e →
  mapM f (pre ++ x :: post) = Raise e.
Proof.
  induction pre as [|x0 pre IH]; intros Hpre Hx.
  - change ([] ++ x :: post) with (x :: post).
    rewrite mapM_result_cons, Hx. reflexivity.
  - apply Forall_cons in Hpre as [[y Hy] Hpre].
    change ((x0 :: pre) ++ x :: post) with (x0 :: (pre ++ x :: post)).
    rewrite mapM_result_cons, Hy, (IH Hpre Hx). reflexivity.
Qed.

Section PdfFacts.

Variable luma : pixel → Z.
Variable clahe : Q → nat → list (list Z) → list (list Z).
Variable process_image_None : Settings → result pil_image.

Lemma process_image_renders (bgr : ndarray) (s : Settings) :
  is_bgr bgr = true → valid_style (style s) →
  ∃ out, process_image luma clahe bgr s = Ok out ∧ bands out = 3%nat.
Proof.
  intros Hbgr Hstyle. destruct bgr as [g|c]; simpl in Hbgr; [discriminate |].
  rewrite (process_image_color luma clahe c s Hbgr).
  destruct Hstyle as [E|E]; rewrite E; simpl; eexists; split; reflexivity.
Qed.

Lemma render_page_renders (d : ImageData) :
  renderable d →
  ∃ out, render_page luma clahe process_image_None d = Ok out ∧ bands out = 3%nat.
Proof.
  intros (bgr & Hbgr & Hok & Hstyle). unfold render_page. rewrite Hbgr.
  apply process_image_renders; assumption.
Qed.

Lemma pdf_pages_total (docs : list ImageData) :
  Forall renderable docs →
  ∃ pages, mapM (render_page luma clahe process_image_None) docs = Ok pages
           ∧ Forall (λ p, bands p = 3%nat) pages.
Proof.
  induction docs as [|d docs IH]; intros H.
  - exists []. split; [reflexivity | constructor].
  - apply Forall_cons in H as [Hd Hdocs].
    destruct (render_page_renders d Hd) as (p & Hp & Hb).
    destruct (IH Hdocs) as (pages & Hpages & Hbs).
    exists (p :: pages). rewrite mapM_result_cons, Hp, Hpages.
    split; [reflexivity | constructor; assumption].
Qed.

(** X13: when every image is decoded and has a known style, the PDF loop
    returns one page per image, in the order of the image list, each page
    the render of the image at its position and each with three
    channels. *)
Theorem pdf_pages_one_page_per_image (st : SessionState) :
  Forall renderable (images st) →
  ∃ pages,
    pdf_pages luma clahe process_image_None st = Ok pages
    ∧ length pages = length (images st)
    ∧ Forall2 (λ d p, render_page luma clahe process_image_None d = Ok p) (images st) pages
    ∧ Forall (λ p, bands p = 3%nat) pages.
Proof.
  intros H. destruct (pdf_pages_total (images st) H) as (pages & Hrun & Hb).
  exists pages. split; [exact Hrun |].
  pose proof (proj1 (mapM_result_Ok _ _ _) Hrun) as Hall.
  split; [symmetry; eapply Forall2_length, Hall |].
  split; [exact Hall | exact Hb].
Qed.

(** X14: the PDF loop stops at the first image it cannot render: after images
    that render, whatever exception the render of the next image raises
    ends the loop with that exception, the pages made so far are dropped
    and the images after it are not rendered.  In particular a decoded
    image whose style is neither "Original" nor "Black & White" ends the
    loop with the [NameError] of [process_image]. *)
Theorem pdf_pages_first_failure (st : SessionState)
    (before after : list ImageData) (d : ImageData) :
  images st = before ++ d :: after →
  Forall renderable before →
  (∀ e, render_page luma clahe process_image_None d = Raise e →
        pdf_pages luma clahe process_image_None st = Raise e)
  ∧ (∀ bgr, original_bgr d = Some bgr → is_bgr bgr = true →
       ¬ valid_style (style (settings d)) →
       render_page luma clahe process_image_None d
       = Raise (NameError "processed_img")
       ∧ pdf_pages luma clahe process_image_None st
         = Raise (NameError "processed_img")).
Proof.
  intros Himgs Hbefore.
  assert (Hpre : Forall (λ x, ∃ y, render_page luma clahe process_image_None x
                                   = Ok y) before).
  { eapply Forall_impl; [exact Hbefore |]. intros x Hx.
    destruct (render_page_renders x Hx) as (y & Hy & _). eauto. }
  assert (Hstop : ∀ e, render_page luma clahe process_image_None d = Raise e →
                       pdf_pages luma clahe process_image_None st = Raise e).
  { intros e He. unfold pdf_pages. rewrite Himgs.
    apply mapM_result_Raise; assumption. }
  split; [exact Hstop |].
  intros bgr Hbgr Hok Hbad.
  assert (Hd : render_page luma clahe process_image_None d
               = Raise (NameError "processed_img")).
  { unfold render_page. rewrite Hbgr.
    destruct bgr as [g|c]; simpl in Hok; [discriminate |].
    rewrite (process_image_color luma clahe c _ Hok).
    destruct (String.eqb_spec (style (settings d)) "Black & White") as [E|_].
    { exfalso. apply Hbad. right. exact E. }
    destruct (String.eqb_spec (style (settings d)) "Original") as [E|_].
    { exfalso. apply Hbad. left. exact E. }
    reflexivity. }
  split; [exact Hd | exact (Hstop _ Hd)].
Qed.

(** X15: the pages follow a reorder: with unique ids and a permutation of them,
    if the PDF loop returns pages for a state, it returns pages for the
    reordered state too, these are the same pages in another order, and
    each is still the render of the image at its position. *)
Theorem pdf_pages_follow_reorder (new_file_id_order : list string)
    (st : SessionState) (pages : list pil_image) :
  NoDup (map file_id (images st)) →
  new_file_id_order ≡ₚ map file_id (images st) →
  pdf_pages luma clahe process_image_None st = Ok pages →
  ∃ st' pages',
    reorder_pages new_file_id_order st = Ok st'
    ∧ pdf_pages luma clahe process_image_None st' = Ok pages'
    ∧ pages' ≡ₚ pages
    ∧ Forall2 (λ d p, render_page luma clahe process_image_None d = Ok p) (images st') pages'.
Proof.
  intros Hnd Hperm Hrun.
  apply Permutation_map_inv in Hperm as (docs & -> & Hdocs).
  set (page := λ d, match render_page luma clahe process_image_None d with
                    | Ok p => p
                    | Raise _ => PIL_L []
                    end).
  assert (Hpage : ∀ l k, Forall2 (λ d p, render_page luma clahe process_image_None d = Ok p) l k →
                         k = map page l).
  { induction 1 as [|d p l k Hd _ IH]; [reflexivity |].
    simpl. unfold page at 1. rewrite Hd, IH. reflexivity. }
  apply mapM_result_Ok in Hrun.
  assert (Hdocs_ok : Forall2 (λ d p, render_page luma clahe process_image_None d = Ok p)
                       docs (map page docs)).
  { apply Forall2_fmap_r, Forall_Forall2_diag, Forall_forall. intros d Hd.
    rewrite <- Hdocs in Hd. apply list_elem_of_lookup in Hd as [i Hi].
    destruct (Forall2_lookup_l _ _ _ _ _ Hrun Hi) as (p & _ & Hp).
    simpl. unfold page. rewrite Hp. reflexivity. }
  exists (set_images docs st), (map page docs).
  split; [apply reorder_pages_to; [exact Hnd | symmetry; exact Hdocs] |].
  split; [apply mapM_result_Ok; exact Hdocs_ok |].
  split; [| exact Hdocs_ok].
  rewrite (Hpage _ _ Hrun). apply Permutation_map. symmetry. exact Hdocs.
Qed.

End PdfFacts.

Lemma pdf_pages_one_page_per_image_witness :
  Forall renderable (images two_docs)
  ∧ ∃ pages,
      pdf_pages example_luma example_clahe example_process_image_None two_docs = Ok pages
      ∧ length pages = 2%nat
      ∧ Forall (λ p, bands p = 3%nat) pages.
Proof.
  assert (H : Forall renderable (images two_docs)).
  { simpl. apply Forall_cons_2; [| apply Forall_cons_2; [| apply Forall_nil_2]].
    - exists example_raster. split; [reflexivity |].
      split; [reflexivity | left; reflexivity].
    - exists example_raster. split; [reflexivity |].
      split; [reflexivity | right; reflexivity]. }
  split; [exact H |].
  destruct (pdf_pages_one_page_per_image example_luma example_clahe
              example_process_image_None two_docs H)
    as (pages & Hrun & Hlen & _ & Hb).
  exists pages. split; [exact Hrun |]. split; [exact Hlen | exact Hb].
Defined.

Lemma pdf_pages_first_failure_witness :
  images (set_images [doc_a; doc_sepia; doc_b] two_docs)
  = [doc_a] ++ doc_sepia :: [doc_b]
  ∧ Forall renderable [doc_a]
  ∧ original_bgr doc_sepia = Some example_raster
  ∧ is_bgr example_raster = true
  ∧ ¬ valid_style (style (settings doc_sepia))
  ∧ pdf_pages example_luma example_clahe example_process_image_None
      (set_images [doc_a; doc_sepia; doc_b] two_docs)
    = Raise (NameError "processed_img").
Proof.
  assert (H1 : images (set_images [doc_a; doc_sepia; doc_b] two_docs)
               = [doc_a] ++ doc_sepia :: [doc_b]) by reflexivity.
  assert (H2 : Forall renderable [doc_a]).
  { apply Forall_cons_2; [| apply Forall_nil_2].
    exists example_raster. split; [reflexivity |].
    split; [reflexivity | left; reflexivity]. }
  assert (H3 : original_bgr doc_sepia = Some example_raster) by reflexivity.
  assert (H4 : is_bgr example_raster = true) by reflexivity.
  assert (H5 : ¬ valid_style (style (settings doc_sepia))).
  { intros [H|H]; discriminate H. }
  split; [exact H1 |]. split; [exact H2 |]. split; [exact H3 |].
  split; [exact H4 |]. split; [exact H5 |].
  exact (proj2 (proj2 (pdf_pages_first_failure example_luma example_clahe
                         example_process_image_None _ _ _ _ H1 H2)
                  _ H3 H4 H5)).
Defined.

Lemma pdf_pages_follow_reorder_witness :
  NoDup (map file_id (images two_docs))
  ∧ ["id-b"; "id-a"] ≡ₚ map file_id (images two_docs)
  ∧ pdf_pages example_luma example_clahe example_process_image_None two_docs
    = Ok [PIL_RGB [[(30, 20, 10)]]; PIL_RGB [[(42, 42, 42)]]]
  ∧ ∃ st' pages',
      reorder_pages ["id-b"; "id-a"] two_docs = Ok st'
      ∧ pdf_pages example_luma example_clahe example_process_image_None st' = Ok pages'
      ∧ pages' ≡ₚ [PIL_RGB [[(30, 20, 10)]]; PIL_RGB [[(42, 42, 42)]]].
Proof.
  assert (Hnd : NoDup (map file_id (images two_docs))).
  { simpl. repeat (apply NoDup_cons_2; [id_not_listed |]). apply NoDup_nil_2. }
  assert (Hperm : ["id-b"; "id-a"] ≡ₚ map file_id (images two_docs)).
  { simpl. apply perm_swap. }
  assert (Hrun : pdf_pages example_luma example_clahe example_process_image_None two_docs
                 = Ok [PIL_RGB [[(30, 20, 10)]]; PIL_RGB [[(42, 42, 42)]]])
    by (vm_compute; reflexivity).
  split; [exact Hnd |]. split; [exact Hperm |]. split; [exact Hrun |].
  destruct (pdf_pages_follow_reorder example_luma example_clahe
              example_process_image_None _ two_docs _
              Hnd Hperm Hrun) as (st' & pages' & H1 & H2 & H3 & _).
  exists st', pages'. auto.
Defined.

(** ** The pipeline on pixels *)

Lemma zip_cons_map {A B} (f : A → B) (col : list A) (rows : list (list A)) :
  zip_cons (map f col) (map_rows f rows) = map_rows f (zip_cons col rows).
Proof.
  revert rows. induction col as [|x col IH]; intros [|r rows]; simpl;
    try reflexivity.
  unfold map_rows in *. rewrite IH. reflexivity.
Qed.

Lemma transpose_map {A B} (f : A → B) (rows : list (list A)) :
  transpose (map_rows f rows) = map_rows f (transpose rows).
Proof.
  induction rows as [|r rest IH]; [reflexivity |].
  destruct rest as [|r' rest'].
  - simpl. unfold map_rows. rewrite !map_map. reflexivity.
  - change (transpose (map_rows f (r :: r' :: rest')))
      with (zip_cons (map f r) (transpose (map_rows f (r' :: rest')))).
    rewrite IH. apply zip_cons_map.
Qed.

Lemma rotate_rows_map {A B} (f : A → B) (code : rotate_code)
    (rows : list (list A)) :
  rotate_rows code (map_rows f rows) = map_rows f (rotate_rows code rows).
Proof.
  destruct code; simpl.
  - rewrite <- transpose_map. unfold map_rows. rewrite map_rev. reflexivity.
  - unfold map_rows. rewrite map_rev, !map_map. f_equal.
    apply map_ext. intros r. symmetry. apply map_rev.
  - rewrite transpose_map. unfold map_rows. rewrite map_rev. reflexivity.
Qed.

Lemma rotated_rows_map {A B} (f : A → B) (r : Z) (rows : list (list A)) :
  rotated_rows r (map_rows f rows) = map_rows f (rotated_rows r rows).
Proof.
  unfold rotated_rows. repeat case_match; try apply rotate_rows_map.
  reflexivity.
Qed.

(** X16: steps 1 and 2 of the pipeline commute: adjusting brightness and
    contrast after the rotation gives the raster that rotating after the
    adjustment gives, for every raster and every settings record. *)
Theorem rotate_and_adjust_commute (bgr : ndarray) (s : Settings) :
  adjust_brightness_contrast (rotate_step bgr s) (brightness s) (contrast s)
  = rotate_step
      (adjust_brightness_contrast bgr (brightness s) (contrast s)) s.
Proof.
  unfold rotate_step, adjust_brightness_contrast.
  destruct bgr as [g|c]; repeat case_match;
    unfold cv2_rotate, cv2_convertScaleAbs;
    rewrite ?rotate_rows_map; reflexivity.
Qed.

Lemma scale_abs_u8_range (alpha : Q) (beta src : Z) :
  is_u8 (scale_abs_u8 alpha beta src).
Proof. unfold is_u8, scale_abs_u8, saturate_u8. lia. Qed.

Lemma scale_abs_u8_neutral (v : Z) : is_u8 v → scale_abs_u8 1 0 v = v.
Proof.
  unfold is_u8. intros H.
  rewrite (scale_abs_u8_integer 1 0 v v); try lra; try lia.
  unfold scaled. change (inject_Z 0) with 0%Q. ring.
Qed.

Lemma map_rows_id_on {A} (P : A → Prop) (f : A → A) (rows : list (list A)) :
  (∀ x, P x → f x = x) → Forall (Forall P) rows → map_rows f rows = rows.
Proof.
  intros Hf. unfold map_rows. induction 1 as [|r rows Hr _ IH]; [reflexivity |].
  simpl. rewrite IH. f_equal.
  induction Hr as [|x r Hx _ IHr]; [reflexivity |].
  simpl. rewrite (Hf x Hx), IHr. reflexivity.
Qed.

Section PixelFacts.

Variable luma : pixel → Z.
Variable clahe : Q → nat → list (list Z) → list (list Z).

(** X17: with brightness 0 and contrast 1.0 the "Original" render changes no
    channel value: for a colour raster of [uint8] values the result is the
    rotated raster with the channel order turned from BGR to RGB.  The
    unused helper [bgr_to_pil] is this render without rotation. *)
Theorem process_image_neutral_settings (c : list (list pixel)) (r : Z) :
  raster_ok c = true →
  raster_u8 c →
  process_image luma clahe (Color c)
    {| style := "Original"; brightness := 0; contrast := 1%Q; rotate := r |}
  = Ok (PIL_RGB (map_rows swap_br (rotated_rows r c)))
  ∧ bgr_to_pil luma (Color c)
    = process_image luma clahe (Color c) default_settings.
Proof.
  intros Hok Hu8.
  assert (Hadj : ∀ r', adjusted_rows c
            {| style := "Original"; brightness := 0; contrast := 1%Q;
               rotate := r' |} = rotated_rows r' c).
  { intros r'. unfold adjusted_rows. simpl. rewrite <- rotated_rows_map.
    f_equal. apply (map_rows_id_on pixel_u8); [| exact Hu8].
    intros [[b g] r0] (Hb & Hg & Hr). simpl in *. unfold map_channels.
    rewrite !scale_abs_u8_neutral by assumption. reflexivity. }
  split.
  - rewrite (process_image_color luma clahe c _ Hok). simpl.
    rewrite Hadj. reflexivity.
  - unfold default_settings.
    rewrite (process_image_color luma clahe c _ Hok). simpl.
    rewrite Hadj. unfold bgr_to_pil, cv2_cvtColor. simpl.
    rewrite (raster_ok_not_empty c Hok). reflexivity.
Qed.

(** X18: the "Original" render never leaves the [uint8] range and the
    "Black & White" render is grey: for every decoded colour raster,
    whatever the brightness, contrast and rotation, every channel of an
    "Original" result lies in [0, 255], and every pixel of a
    "Black & White" result has three equal channels. *)
Theorem process_image_channel_values (bgr : ndarray) (s : Settings) :
  is_bgr bgr = true →
  (style s = "Original" →
   ∃ out, process_image luma clahe bgr s = Ok out
          ∧ raster_u8 (rgb_rows out))
  ∧ (style s = "Black & White" →
     ∃ out, process_image luma clahe bgr s = Ok out
            ∧ Forall (Forall (λ p : pixel, p.1.1 = p.1.2 ∧ p.1.2 = p.2))
                (rgb_rows out)).
Proof.
  destruct bgr as [g|c]; simpl; [discriminate |]. intros Hok.
  rewrite (process_image_color luma clahe c s Hok). split; intros E;
    rewrite E; simpl; eexists; (split; [reflexivity |]); simpl.
  - unfold adjusted_rows, map_rows. rewrite map_map.
    apply Forall_forall. intros row Hrow. apply list_elem_of_In in Hrow.
    apply in_map_iff in Hrow as (row0 & <- & _). rewrite map_map.
    apply Forall_forall. intros p Hp. apply list_elem_of_In in Hp.
    apply in_map_iff in Hp as ([[b g] r0] & <- & _).
    repeat split; apply scale_abs_u8_range.
  - unfold map_rows.
    apply Forall_forall. intros row Hrow. apply list_elem_of_In in Hrow.
    apply in_map_iff in Hrow as (row0 & <- & _).
    apply Forall_forall. intros p Hp. apply list_elem_of_In in Hp.
    apply in_map_iff in Hp as (v & <- & _). split; reflexivity.
Qed.

End PixelFacts.

Lemma process_image_neutral_settings_witness :
  raster_ok [[(10, 20, 30); (1, 2, 3)]] = true
  ∧ raster_u8 [[(10, 20, 30); (1, 2, 3)]]
  ∧ process_image example_luma example_clahe
      (Color [[(10, 20, 30); (1, 2, 3)]])
      {| style := "Original"; brightness := 0; contrast := 1%Q; rotate := 90 |}
    = Ok (PIL_RGB [[(30, 20, 10)]; [(3, 2, 1)]]).
Proof.
  assert (H1 : raster_ok [[(10, 20, 30); (1, 2, 3)]] = true) by reflexivity.
  assert (H2 : raster_u8 [[(10, 20, 30); (1, 2, 3)]]).
  { repeat constructor; simpl; lia. }
  split; [exact H1 |]. split; [exact H2 |].
  exact (proj1 (process_image_neutral_settings example_luma example_clahe
                  _ 90 H1 H2)).
Defined.

Lemma process_image_channel_values_witness :
  is_bgr (Color [[(250, 5, 30)]]) = true
  ∧ style settings_brightness_500 = "Original"
  ∧ (∃ out, process_image example_luma example_clahe (Color [[(250, 5, 30)]])
              settings_brightness_500 = Ok out
            ∧ raster_u8 (rgb_rows out))
  ∧ style (settings doc_b) = "Black & White"
  ∧ ∃ out, process_image example_luma example_clahe example_raster
             (settings doc_b) = Ok out
           ∧ Forall (Forall (λ p : pixel, p.1.1 = p.1.2 ∧ p.1.2 = p.2))
               (rgb_rows out).
Proof.
  assert (H1 : is_bgr (Color [[(250, 5, 30)]]) = true) by reflexivity.
  assert (H2 : style settings_brightness_500 = "Original") by reflexivity.
  assert (H3 : is_bgr example_raster = true) by reflexivity.
  assert (H4 : style (settings doc_b) = "Black & White") by reflexivity.
  split; [exact H1 |]. split; [exact H2 |].
  split; [exact (proj1 (process_image_channel_values example_luma
                          example_clahe _ settings_brightness_500 H1) H2) |].
  split; [exact H4 |].
  exact (proj2 (process_image_channel_values example_luma example_clahe _
                  (settings doc_b) H3) H4).
Defined.

(** ** Page dimensions *)

Lemma rows_shape_rect {A} (n : nat) (rows : list (list A)) :
  rows ≠ [] → Forall (λ r, length r = n) rows →
  rows_shape rows = (length rows, n).
Proof.
  intros Hne Hall. destruct rows as [|r rest]; [congruence |].
  apply Forall_cons in Hall as [Hr _]. unfold rows_shape. rewrite Hr.
  reflexivity.
Qed.

Lemma rows_shape_map {A B} (f : A → B) (rows : list (list A)) :
  rows_shape (map_rows f rows) = rows_shape rows.
Proof.
  destruct rows as [|r rest]; [reflexivity |].
  unfold rows_shape, map_rows. simpl. rewrite !length_map. reflexivity.
Qed.

Lemma rows_shape_rotate {A} (code : rotate_code) (rows : list (list A)) :
  raster_ok rows = true →
  rows_shape (rotate_rows code rows)
  = match code with
    | ROTATE_180 => rows_shape rows
    | _ => ((rows_shape rows).2, (rows_shape rows).1)
    end.
Proof.
  intros Hok. pose proof (raster_ok_rotate_rows code rows Hok) as Hok'.
  apply raster_ok_spec in Hok as (n & Hn & Hne & Hall).
  apply raster_ok_spec in Hok' as (n' & Hn' & Hne' & Hall').
  rewrite (rows_shape_rect n rows Hne Hall).
  rewrite (rows_shape_rect n' _ Hne' Hall').
  assert (Hrev : rev rows ≠ []).
  { intros E. apply (f_equal length) in E. rewrite length_rev in E.
    destruct rows; [congruence | discriminate]. }
  assert (Hallrev : Forall (λ r, length r = n) (rev rows)).
  { apply Forall_forall. intros r Hr. rewrite Forall_forall in Hall.
    apply Hall. apply list_elem_of_In. apply in_rev.
    apply list_elem_of_In. exact Hr. }
  assert (Hfirst : ∀ (l : list (list A)) m, l ≠ [] →
            Forall (λ r, length r = n') l → Forall (λ r, length r = m) l →
            n' = m).
  { intros [|r l] m Hl H1 H2; [congruence |].
    apply Forall_cons in H1 as [<- _]. apply Forall_cons in H2 as [<- _].
    reflexivity. }
  destruct code; simpl in *.
  - destruct (transpose_rect n (rev rows) Hrev Hallrev) as [Hl Hf].
    rewrite length_rev in Hf. rewrite Hl.
    rewrite (Hfirst _ (length rows) Hne' Hall' Hf). reflexivity.
  - rewrite length_rev, length_map. f_equal.
    apply (Hfirst _ n Hne' Hall').
    apply Forall_forall. intros r Hr. apply list_elem_of_In in Hr.
    apply in_rev in Hr. rewrite ?rev_involutive in Hr.
    apply in_map_iff in Hr as (r0 & <- & Hr0). rewrite length_rev.
    rewrite Forall_forall in Hall. apply Hall. apply list_elem_of_In.
    exact Hr0.
  - destruct (transpose_rect n rows Hne Hall) as [Hl Hf].
    rewrite length_rev, Hl. f_equal.
    apply (Hfirst _ (length rows) Hne' Hall').
    apply Forall_forall. intros r Hr. apply list_elem_of_In in Hr.
    apply in_rev in Hr. rewrite ?rev_involutive in Hr.
    rewrite Forall_forall in Hf. apply Hf. apply list_elem_of_In. exact Hr.
Qed.

(** X19: the page of an "Original" render has the size of the raster, turned
    for a quarter turn: for a decoded colour raster of height [h] and width
    [w] the PIL image has size (w, h) (width, height), except for the
    rotations 90 and 270, where it has size (h, w). *)
Theorem process_image_page_size
    (luma : pixel → Z) (clahe : Q → nat → list (list Z) → list (list Z))
    (c : list (list pixel)) (s : Settings) :
  raster_ok c = true →
  style s = "Original" →
  ∃ out,
    process_image luma clahe (Color c) s = Ok out
    ∧ pil_size out
      = if (rotate s =? 90) || (rotate s =? 270)
        then ((rows_shape c).1, (rows_shape c).2)
        else ((rows_shape c).2, (rows_shape c).1).
Proof.
  intros Hok Hstyle. rewrite (process_image_color luma clahe c s Hok), Hstyle.
  simpl. eexists. split; [reflexivity |].
  unfold pil_size, adjusted_rows. rewrite !rows_shape_map.
  unfold rotated_rows.
  destruct (rotate s =? 90) eqn:E90.
  { rewrite (rows_shape_rotate _ c Hok). reflexivity. }
  destruct (rotate s =? 180) eqn:E180.
  { rewrite (rows_shape_rotate _ c Hok).
    assert (E270 : (rotate s =? 270) = false) by lia.
    rewrite E270. reflexivity. }
  destruct (rotate s =? 270) eqn:E270.
  { rewrite (rows_shape_rotate _ c Hok). reflexivity. }
  reflexivity.
Qed.

Lemma process_image_page_size_witness :
  raster_ok [[(1, 2, 3); (4, 5, 6); (7, 8, 9)]] = true
  ∧ style default_settings = "Original"
  ∧ (∃ out, process_image example_luma example_clahe
              (Color [[(1, 2, 3); (4, 5, 6); (7, 8, 9)]]) default_settings
            = Ok out ∧ pil_size out = (3%nat, 1%nat))
  ∧ ∃ out, process_image example_luma example_clahe
             (Color [[(1, 2, 3); (4, 5, 6); (7, 8, 9)]])
             (set_rotate 270 default_settings)
           = Ok out ∧ pil_size out = (1%nat, 3%nat).
Proof.
  assert (H1 : raster_ok [[(1, 2, 3); (4, 5, 6); (7, 8, 9)]] = true)
    by reflexivity.
  assert (H2 : style default_settings = "Original") by reflexivity.
  split; [exact H1 |]. split; [exact H2 |]. split.
  - exact (process_image_page_size example_luma example_clahe _
             default_settings H1 H2).
  - exact (process_image_page_size example_luma example_clahe _
             (set_rotate 270 default_settings) H1 H2).
Defined.

(** ** Two-dimensional input *)

(** X20: on a two-dimensional (single-channel) array of positive height and
    width the branches for that shape run.  The "Original" style returns a
    three-channel page: the rotated values, each sent through
    [cv2.convertScaleAbs] and replicated to three channels; the page has
    the size of the array, turned for the rotations 90 and 270; every
    channel lies in [0, 255]; and with brightness 0 and contrast 1 a
    [uint8] array comes back as its rotated self.  The "Black & White"
    style fails, because [to_gray] asks OpenCV to convert from BGR an array
    that has one channel.  [bgr_to_pil] returns the values replicated. *)
Theorem process_image_grey_input
    (luma : pixel → Z) (clahe : Q → nat → list (list Z) → list (list Z))
    (g : list (list Z)) (s : Settings) :
  raster_ok g = true →
  (style s = "Original" →
   ∃ out,
     process_image luma clahe (Gray g) s = Ok out
     ∧ out = PIL_RGB
               (map_rows (λ v, (v, v, v))
                  (map_rows (scale_abs_u8 (contrast s) (brightness s))
                     (rotated_rows (rotate s) g)))
     ∧ bands out = 3%nat
     ∧ pil_size out
       = (if (rotate s =? 90) || (rotate s =? 270)
          then ((rows_shape g).1, (rows_shape g).2)
          else ((rows_shape g).2, (rows_shape g).1))
     ∧ raster_u8 (rgb_rows out)
     ∧ (Forall (Forall is_u8) g → brightness s = 0 → contrast s = 1%Q →
        out = PIL_RGB (map_rows (λ v, (v, v, v))
                         (rotated_rows (rotate s) g))))
  ∧ (style s = "Black & White" →
     process_image luma clahe (Gray g) s = Raise cv2_error)
  ∧ bgr_to_pil luma (Gray g) = Ok (PIL_RGB (map_rows (λ v, (v, v, v)) g)).
Proof.
  intros Hok.
  assert (Hrot : rotate_step (Gray g) s = Gray (rotated_rows (rotate s) g)).
  { unfold rotate_step, rotated_rows. repeat case_match; reflexivity. }
  split; [| split; [| reflexivity]]; intros E;
    unfold process_image, style_step, adjust_brightness_contrast;
    rewrite Hrot, E; [| reflexivity].
  simpl. eexists. split; [reflexivity |]. split; [reflexivity |].
  split; [reflexivity |]. split; [| split].
  - unfold pil_size. rewrite !rows_shape_map. unfold rotated_rows.
    destruct (rotate s =? 90) eqn:E90.
    { rewrite (rows_shape_rotate _ g Hok). reflexivity. }
    destruct (rotate s =? 180) eqn:E180.
    { rewrite (rows_shape_rotate _ g Hok).
      assert (E270 : (rotate s =? 270) = false) by lia.
      rewrite E270. reflexivity. }
    destruct (rotate s =? 270) eqn:E270.
    { rewrite (rows_shape_rotate _ g Hok). reflexivity. }
    reflexivity.
  - unfold rgb_rows, map_rows. rewrite map_map.
    apply Forall_forall. intros row Hrow. apply list_elem_of_In in Hrow.
    apply in_map_iff in Hrow as (row0 & <- & _). rewrite map_map.
    apply Forall_forall. intros p Hp. apply list_elem_of_In in Hp.
    apply in_map_iff in Hp as (v & <- & _).
    repeat split; apply scale_abs_u8_range.
  - intros Hu8 Hb Hc. rewrite Hb, Hc. do 2 f_equal.
    rewrite <- rotated_rows_map. f_equal.
    apply (map_rows_id_on is_u8); [| exact Hu8].
    intros v Hv. apply scale_abs_u8_neutral. exact Hv.
Qed.

Lemma process_image_grey_input_witness :
  raster_ok [[10; 200]] = true
  ∧ style settings_darken = "Original"
  ∧ (∃ out,
       process_image example_luma example_clahe (Gray [[10; 200]])
         (set_rotate 90 settings_darken) = Ok out
       ∧ out = PIL_RGB [[(90, 90, 90)]; [(100, 100, 100)]]
       ∧ pil_size out = (1%nat, 2%nat))
  ∧ style (settings doc_b) = "Black & White"
  ∧ process_image example_luma example_clahe (Gray [[10; 200]]) (settings doc_b)
    = Raise cv2_error.
Proof.
  assert (H1 : raster_ok [[10; 200]] = true) by reflexivity.
  assert (H2 : style (set_rotate 90 settings_darken) = "Original")
    by reflexivity.
  assert (H3 : style (settings doc_b) = "Black & White") by reflexivity.
  destruct (process_image_grey_input example_luma example_clahe [[10; 200]]
              (set_rotate 90 settings_darken) H1) as (Ho & _ & _).
  destruct (process_image_grey_input example_luma example_clahe [[10; 200]]
              (settings doc_b) H1) as (_ & Hb & _).
  split; [exact H1 |]. split; [exact H2 |].
  destruct (Ho H2) as (out & Hrun & Hout & _ & Hsize & _).
  split.
  { exists out. split; [exact Hrun |]. split; [| exact Hsize].
    rewrite Hout. vm_compute. reflexivity. }
  split; [exact H3 | exact (Hb H3)].
Defined.
